(** * palapuzzle: reading the .puzzle files of Palapeli

    A shallow embedding of the Go package [palapuzzle] (palapuzzle.go and
    its earlier revision), and the properties of its archive scanner.

    Conventions of the embedding:
    - Go's [int] is the 64-bit two's complement integer, a [Z] kept in
      range by [wrap_int]; a [byte] is a [Z] kept in range by [wrap_byte].
    - Go strings are byte strings: [string] of 8-bit [ascii].
    - A Go function that may panic returns an [outcome]. The platform is
      a 64-bit one with heap addresses of 48 bits: [make] panics for a
      length above [maxAlloc]. Running out of memory is not modelled.
    - The operating system, gzip and tar are the input of the scan: what
      each library call gives back is read from an [OS] value. *)

From Stdlib Require Import ZArith Lia List Ascii String Permutation.
From stdpp Require Import base tactics option list numbers strings pretty.

Open Scope string_scope.
Open Scope list_scope.
Open Scope Z_scope.

(** ** Strings *)

(** The string of the given byte codes. *)
Definition str_of_codes (l : list nat) : string :=
  fold_right (fun n s => String (ascii_of_nat n) s) EmptyString l.

(** One double quote character. *)
Definition dquote : string := str_of_codes [34%nat].

Definition string_rev (s : string) : string :=
  string_of_list_ascii (rev (list_ascii_of_string s)).

Fixpoint string_repeat (c : ascii) (n : nat) : string :=
  match n with
  | O => EmptyString
  | S n' => String c (string_repeat c n')
  end.

(** [strip_prefix p s] is the rest of [s] after its prefix [p]. *)
Fixpoint strip_prefix (p s : string) : option string :=
  match p, s with
  | EmptyString, _ => Some s
  | String a p', String b s' =>
      if Ascii.eqb a b then strip_prefix p' s' else None
  | String _ _, EmptyString => None
  end.

(** The longest prefix of characters satisfying [p], and the rest. *)
Fixpoint span (p : ascii -> bool) (s : string) : string * string :=
  match s with
  | EmptyString => (EmptyString, EmptyString)
  | String c r =>
      if p c then let (a, b) := span p r in (String c a, b)
      else (EmptyString, s)
  end.

Fixpoint string_forallb (p : ascii -> bool) (s : string) : bool :=
  match s with
  | EmptyString => true
  | String c r => p c && string_forallb p r
  end.

Definition is_digit (c : ascii) : bool :=
  let n := nat_of_ascii c in (48 <=? n)%nat && (n <=? 57)%nat.

Definition is_newline (c : ascii) : bool := Ascii.eqb c (ascii_of_nat 10).

(** ** Machine integers *)

Definition maxInt : Z := 2 ^ 63 - 1.
Definition minInt : Z := - 2 ^ 63.

(** Two's complement wrap-around of [int] arithmetic. *)
Definition wrap_int (z : Z) : Z := (z + 2 ^ 63) mod 2 ^ 64 - 2 ^ 63.

(** Wrap-around of [byte] arithmetic. *)
Definition wrap_byte (z : Z) : Z := z mod 256.

(** ** Run-time panics *)

Inductive panic : Type :=
| MakesliceLenOutOfRange
| IndexOutOfRange (i n : Z)
| NilDereference.

Inductive outcome (A : Type) : Type :=
| Ret (a : A)
| Panic (p : panic).
Arguments Ret {A} a.
Arguments Panic {A} p.

(** A panic ends the function: the sequencing of stdpp's monad notation
    [x ← m; k]. *)
#[global] Instance outcome_bind : MBind outcome := fun A B f m =>
  match m with
  | Ret a => f a
  | Panic p => Panic p
  end.

(** ** Byte slices *)

Definition len (s : list Z) : Z := Z.of_nat (length s).

(** The most bytes the runtime allocates at once: its [maxAlloc], on a
    64-bit platform with heap addresses of 48 bits. *)
Definition maxAlloc : Z := 2 ^ 48.

(** [make([]byte, n)]: a negative length, and a length above [maxAlloc],
    panic at run time (makeslice: len out of range). An allocation within
    the limit is taken to succeed: a machine that runs out of memory is
    not modelled. *)
Definition make (n : Z) : outcome (list Z) :=
  if (n <? 0) || (maxAlloc <? n) then Panic MakesliceLenOutOfRange
  else Ret (replicate (Z.to_nat n) 0).

(** [copy(dst, src)] overwrites the first [min (len dst) (len src)]
    elements of [dst]. *)
Definition copy (dst src : list Z) : list Z :=
  take (length dst) src ++ drop (length src) dst.

(** [s[i]++] on a byte slice, bounds-checked. *)
Definition incr_at (s : list Z) (i : Z) : outcome (list Z) :=
  if i <? 0 then Panic (IndexOutOfRange i (len s))
  else match s !! Z.to_nat i with
       | Some b => Ret (<[Z.to_nat i := wrap_byte (b + 1)]> s)
       | None => Panic (IndexOutOfRange i (len s))
       end.

(** [s[i]], bounds-checked. *)
Definition index_at (s : list Z) (i : Z) : outcome Z :=
  if i <? 0 then Panic (IndexOutOfRange i (len s))
  else match s !! Z.to_nat i with
       | Some b => Ret b
       | None => Panic (IndexOutOfRange i (len s))
       end.

(** ** Error values of other packages

    [PathError] is [*os.PathError], [NumError] is [*strconv.NumError];
    every other error is kept as the text of its [Error()] method. *)
Inductive error : Type :=
| PathError (Op Path : string) (Err : error)
| NumError (Func Num : string) (Err : error)
| ErrorString (msg : string).

Definition ErrSyntax : error := ErrorString "invalid syntax".
Definition ErrRange : error := ErrorString "value out of range".
Definition ErrTooLong : error := ErrorString "bufio.Scanner: token too long".

(** ** strconv.Atoi

    An optional sign and one or more decimal digits; the value has to
    fit [int]. The digits are read from the left: where they overflow 64
    bits before a character that is no digit is met, the error is the one
    of the range, not of the syntax. *)
Fixpoint digits_value (acc : Z) (s : string) : option Z :=
  match s with
  | EmptyString => Some acc
  | String c r =>
      if is_digit c
      then digits_value (10 * acc + (Z.of_nat (nat_of_ascii c) - 48)) r
      else None
  end.

(** The value of the digits ahead of the first other character. *)
Fixpoint prefix_value (acc : Z) (s : string) : Z :=
  match s with
  | EmptyString => acc
  | String c r =>
      if is_digit c
      then prefix_value (10 * acc + (Z.of_nat (nat_of_ascii c) - 48)) r
      else acc
  end.

Definition Atoi (s : string) : Z + error :=
  let '(neg, body) :=
    match s with
    | String "-"%char r => (true, r)
    | String "+"%char r => (false, r)
    | _ => (false, s)
    end in
  match body with
  | EmptyString => inr (NumError "Atoi" s ErrSyntax)
  | _ =>
      match digits_value 0 body with
      | None =>
          inr (NumError "Atoi" s
                 (if 2 ^ 64 <=? prefix_value 0 body then ErrRange
                  else ErrSyntax))
      | Some v =>
          let n := if neg then - v else v in
          if (minInt <=? n) && (n <=? maxInt) then inl n
          else inr (NumError "Atoi" s ErrRange)
      end
  end.

(** ** strings.TrimSpace

    White space is what [unicode.IsSpace] accepts, in UTF-8: six ASCII
    characters, U+0085, U+00A0, U+1680, U+2000 to U+200A, U+2028, U+2029,
    U+202F, U+205F and U+3000. *)
Definition space_codes : list (list nat) :=
  [ [9]; [10]; [11]; [12]; [13]; [32];
    [194; 133]; [194; 160]; [225; 154; 128];
    [226; 128; 128]; [226; 128; 129]; [226; 128; 130]; [226; 128; 131];
    [226; 128; 132]; [226; 128; 133]; [226; 128; 134]; [226; 128; 135];
    [226; 128; 136]; [226; 128; 137]; [226; 128; 138];
    [226; 128; 168]; [226; 128; 169]; [226; 128; 175];
    [226; 129; 159]; [227; 128; 128] ]%nat.

Fixpoint strip_first (ps : list string) (s : string) : option string :=
  match ps with
  | [] => None
  | p :: ps' =>
      match strip_prefix p s with
      | Some r => Some r
      | None => strip_first ps' s
      end
  end.

Fixpoint trim_left (fuel : nat) (ps : list string) (s : string) : string :=
  match fuel with
  | O => s
  | S fuel' =>
      match strip_first ps s with
      | Some r => trim_left fuel' ps r
      | None => s
      end
  end.

Definition TrimLeftSpace (s : string) : string :=
  trim_left (String.length s) (map str_of_codes space_codes) s.

Definition TrimRightSpace (s : string) : string :=
  string_rev
    (trim_left (String.length s)
       (map (fun l => str_of_codes (rev l)) space_codes) (string_rev s)).

Definition TrimSpace (s : string) : string :=
  TrimRightSpace (TrimLeftSpace s).

(** ** The two regular expressions *)

(** [rePieceName.FindStringSubmatch] for [^(\d+)\.png$]: the captured
    digits, or [None] when the name does not match. *)
Definition rePieceName (name : string) : option string :=
  let (digits, rest) := span is_digit name in
  match digits with
  | EmptyString => None
  | _ => if String.eqb rest ".png" then Some digits else None
  end.

Definition is_key_char (c : ascii) : bool :=
  negb (Ascii.eqb c "["%char) && negb (Ascii.eqb c "="%char).

(** [reKeyValue.FindStringSubmatch]: the pattern is a start anchor, a
    captured key of one or more characters other than an opening square
    bracket and an equals sign, an equals sign, a captured value of any
    characters but newlines, and an end anchor. Gives the key and the
    value, or [None]. *)
Definition reKeyValue (line : string) : option (string * string) :=
  let (key, rest) := span is_key_char line in
  match key, rest with
  | String _ _, String "="%char value =>
      if string_forallb (fun c => negb (is_newline c)) value
      then Some (key, value) else None
  | _, _ => None
  end.

(** ** io.Reader and bufio.Scanner

    A reader delivers [r_data] and then ends, at end of file ([None]) or
    with a read error. *)
Record Reader : Type := mkReader {
  r_data : string;
  r_err : option error
}.

Definition MaxScanTokenSize : Z := 64 * 1024.

(** The text between newlines: the first segment and the later ones. The
    last segment is what follows the last newline. *)
Fixpoint segments (data : string) : string * list string :=
  match data with
  | EmptyString => (EmptyString, [])
  | String c r =>
      let (s, ss) := segments r in
      if is_newline c then (EmptyString, s :: ss) else (String c s, ss)
  end.

(** [dropCR]: a line loses one carriage return at its end. *)
Definition dropCR (s : string) : string :=
  match string_rev s with
  | String c r => if Ascii.eqb c (ascii_of_nat 13) then string_rev r else s
  | EmptyString => s
  end.

(** The tokens [Scan] and [Text] hand out with the default line splitter,
    and what [Err] says afterwards. A line has to fit the buffer of
    [MaxScanTokenSize] bytes together with its newline; the text after the
    last newline is a token when it is not empty and fits the buffer. *)
Fixpoint scan_segments (s : string) (ss : list string) (err : option error)
  : list string * option error :=
  match ss with
  | [] =>
      if Z.of_nat (String.length s) =? 0 then ([], err)
      else if Z.of_nat (String.length s) <=? MaxScanTokenSize
           then ([dropCR s], err)
           else ([], Some ErrTooLong)
  | s' :: ss' =>
      if Z.of_nat (String.length s) <? MaxScanTokenSize
      then let (ts, e) := scan_segments s' ss' err in (dropCR s :: ts, e)
      else ([], Some ErrTooLong)
  end.

Definition Scanner_run (r : Reader) : list string * option error :=
  let (s, ss) := segments (r_data r) in scan_segments s ss (r_err r).

(** ** path/filepath.Split (Unix): cut after the last slash *)
Fixpoint Split (path : string) : string * string :=
  match path with
  | EmptyString => (EmptyString, EmptyString)
  | String c r =>
      let (d, f) := Split r in
      match d with
      | EmptyString =>
          if Ascii.eqb c "/"%char then (String c EmptyString, f)
          else (EmptyString, String c f)
      | _ => (String c d, f)
      end
  end.

(** ** strconv.Quote on ASCII text

    The verb [%q] of [fmt] prints a string through [strconv.Quote]. How
    [Quote] prints a byte above 127 depends on the Unicode tables, so the
    package is embedded over any [quote] function; [QuoteASCII] is what
    [Quote] gives on ASCII text, and stands for it in the examples. *)
Definition hex_digit (n : nat) : ascii :=
  ascii_of_nat (if (n <? 10)%nat then 48 + n else 87 + n).

Definition quote_char (c : ascii) : string :=
  let n := nat_of_ascii c in
  let esc (k : nat) := str_of_codes [92; k]%nat in
  if (n =? 34)%nat then esc 34%nat
  else if (n =? 92)%nat then esc 92%nat
  else if (n =? 7)%nat then esc 97%nat
  else if (n =? 8)%nat then esc 98%nat
  else if (n =? 12)%nat then esc 102%nat
  else if (n =? 10)%nat then esc 110%nat
  else if (n =? 13)%nat then esc 114%nat
  else if (n =? 9)%nat then esc 116%nat
  else if (n =? 11)%nat then esc 118%nat
  else if (32 <=? n)%nat && (n <? 127)%nat then String c EmptyString
  else esc 120%nat
       +:+ String (hex_digit (n / 16)) (String (hex_digit (n mod 16)) EmptyString).

Fixpoint quote_chars (s : string) : string :=
  match s with
  | EmptyString => EmptyString
  | String c r => quote_char c +:+ quote_chars r
  end.

Definition QuoteASCII (s : string) : string :=
  dquote +:+ quote_chars s +:+ dquote.

(** ** The data of the package *)

(** A PuzzleInfo holds the interesting details from a .puzzle file. *)
Record PuzzleInfo : Type := mkPuzzleInfo {
  Dir : string;
  Filename : string;
  Title : string;
  Author : string;
  Comment : string;
  Warnings : list string;
  NPieceFiles : Z;
  NPiecesDecl : Z;
  ImageFileSize : Z;
  PuzzleFileSize : Z
}.

(** [&PuzzleInfo{}]: every field at its zero value. *)
Definition PuzzleInfo_zero : PuzzleInfo :=
  mkPuzzleInfo EmptyString EmptyString EmptyString EmptyString EmptyString
    [] 0 0 0 0.

Definition set_Dir (v : string) (p : PuzzleInfo) : PuzzleInfo :=
  mkPuzzleInfo v (Filename p) (Title p) (Author p) (Comment p) (Warnings p)
    (NPieceFiles p) (NPiecesDecl p) (ImageFileSize p) (PuzzleFileSize p).
Definition set_Filename (v : string) (p : PuzzleInfo) : PuzzleInfo :=
  mkPuzzleInfo (Dir p) v (Title p) (Author p) (Comment p) (Warnings p)
    (NPieceFiles p) (NPiecesDecl p) (ImageFileSize p) (PuzzleFileSize p).
Definition set_Title (v : string) (p : PuzzleInfo) : PuzzleInfo :=
  mkPuzzleInfo (Dir p) (Filename p) v (Author p) (Comment p) (Warnings p)
    (NPieceFiles p) (NPiecesDecl p) (ImageFileSize p) (PuzzleFileSize p).
Definition set_Author (v : string) (p : PuzzleInfo) : PuzzleInfo :=
  mkPuzzleInfo (Dir p) (Filename p) (Title p) v (Comment p) (Warnings p)
    (NPieceFiles p) (NPiecesDecl p) (ImageFileSize p) (PuzzleFileSize p).
Definition set_Comment (v : string) (p : PuzzleInfo) : PuzzleInfo :=
  mkPuzzleInfo (Dir p) (Filename p) (Title p) (Author p) v (Warnings p)
    (NPieceFiles p) (NPiecesDecl p) (ImageFileSize p) (PuzzleFileSize p).
Definition set_Warnings (v : list string) (p : PuzzleInfo) : PuzzleInfo :=
  mkPuzzleInfo (Dir p) (Filename p) (Title p) (Author p) (Comment p) v
    (NPieceFiles p) (NPiecesDecl p) (ImageFileSize p) (PuzzleFileSize p).
Definition set_NPieceFiles (v : Z) (p : PuzzleInfo) : PuzzleInfo :=
  mkPuzzleInfo (Dir p) (Filename p) (Title p) (Author p) (Comment p)
    (Warnings p) v (NPiecesDecl p) (ImageFileSize p) (PuzzleFileSize p).
Definition set_NPiecesDecl (v : Z) (p : PuzzleInfo) : PuzzleInfo :=
  mkPuzzleInfo (Dir p) (Filename p) (Title p) (Author p) (Comment p)
    (Warnings p) (NPieceFiles p) v (ImageFileSize p) (PuzzleFileSize p).
Definition set_ImageFileSize (v : Z) (p : PuzzleInfo) : PuzzleInfo :=
  mkPuzzleInfo (Dir p) (Filename p) (Title p) (Author p) (Comment p)
    (Warnings p) (NPieceFiles p) (NPiecesDecl p) v (PuzzleFileSize p).
Definition set_PuzzleFileSize (v : Z) (p : PuzzleInfo) : PuzzleInfo :=
  mkPuzzleInfo (Dir p) (Filename p) (Title p) (Author p) (Comment p)
    (Warnings p) (NPieceFiles p) (NPiecesDecl p) (ImageFileSize p) v.

(** The error type of the package. [BaseError] is an interface value:
    [None] is nil. *)
Record Error : Type := mkError {
  Action : string;
  FilePath : string;
  BaseError : option error
}.

(** ** The input of a scan *)

(** A tar header, as far as the scanner reads it. *)
Record Header : Type := mkHeader {
  Name : string;
  Size : Z
}.

(** What [tar.Reader] hands out: members with their contents, and then
    [io.EOF] ([None]) or an error from [Next]. *)
Record tar_Reader : Type := mkTar {
  tar_members : list (Header * Reader);
  tar_end : option error
}.

(** An opened file: what [Stat] says of its size, and what
    [gzip.NewReader] followed by [tar.NewReader] makes of it. *)
Record File : Type := mkFile {
  file_Stat : Z + error;
  file_gzip : tar_Reader + error
}.

(** [os.Open], for every path. *)
Definition OS : Type := string -> File + error.

(** The state of the loop over the members. *)
Record scan_state : Type := mkState {
  ret : PuzzleInfo;
  maxPieceNum : Z;
  piecesFound : list Z
}.


(** ** The package *)

Section Palapuzzle.

(** [strconv.Quote]. *)
Variable quote : string -> string.

(** The [Error()] method of the errors of other packages. *)
Fixpoint error_Error (e : error) : string :=
  match e with
  | PathError op path err => op +:+ " " +:+ path +:+ ": " +:+ error_Error err
  | NumError fn num err =>
      "strconv." +:+ fn +:+ ": parsing " +:+ quote num +:+ ": "
      +:+ error_Error err
  | ErrorString msg => msg
  end.

(** The body of the loop of [scanPalaDesktopFile]: one line. *)
Definition scan_line (out : PuzzleInfo) (line : string) : PuzzleInfo :=
  match reKeyValue line with
  | Some (key, m2) =>
      let value := TrimSpace m2 in
      if String.eqb key "Name" then set_Title value out
      else if String.eqb key "X-KDE-PluginInfo-Author"
      then set_Author value out
      else if String.eqb key "Comment" then set_Comment value out
      else if String.eqb key "PieceCount" || String.eqb key "020_PieceCount"
      then
        match Atoi value with
        | inl n => set_NPiecesDecl n out
        | inr _ =>
            set_NPiecesDecl (-1)
              (set_Warnings
                 (Warnings out ++ ["bad PieceCount " +:+ quote value]) out)
        end
      else out
  | None => out
  end.

(** [scanPalaDesktopFile]: the record after all lines, and the error. *)
Definition scanPalaDesktopFile (tr : Reader) (out : PuzzleInfo)
  : PuzzleInfo * option Error :=
  let (lines, err) := Scanner_run tr in
  let out' := fold_left scan_line lines out in
  match err with
  | Some e =>
      (out',
       Some (mkError
               ("cannot read " +:+ dquote +:+ "pala.desktop" +:+ dquote
                +:+ " member in ")
               "?" (Some e)))
  | None => (out', None)
  end.

(** The body of the first loop of [ScanPuzzle]: one member of the
    archive. The loop goes on with a state ([inl]) or the scan returns an
    error ([inr]). *)
Definition scan_member (fs : string) (st : scan_state)
    (header : Header) (body : Reader) : outcome (scan_state + Error) :=
  match rePieceName (Name header) with
  | Some m1 =>
      match Atoi m1 with
      | inr err =>
          let text := "bad member name " +:+ quote (Name header) in
          Ret (inr (mkError text fs (Some err)))
      | inl i =>
          let length := len (piecesFound st) in
          found ← (if i >=? length
                    then newSlice ← make (wrap_int (2 * i));
                         Ret (copy newSlice (piecesFound st))
                    else Ret (piecesFound st));
          found' ← incr_at found i;
          Ret (inl (mkState (ret st)
                      (if i >? maxPieceNum st then i else maxPieceNum st)
                      found'))
      end
  | None =>
      if String.eqb (Name header) "image.jpg"
      then Ret (inl (mkState (set_ImageFileSize (Size header) (ret st))
                       (maxPieceNum st) (piecesFound st)))
      else if String.eqb (Name header) "pala.desktop"
      then
        match scanPalaDesktopFile body (ret st) with
        | (_, Some e) => Ret (inr (mkError (Action e) fs (BaseError e)))
        | (out, None) =>
            Ret (inl (mkState out (maxPieceNum st) (piecesFound st)))
        end
      else Ret (inl st)
  end.

(** The first loop of [ScanPuzzle]: [tr.Next()] until [io.EOF]. *)
Fixpoint scan_members (fs : string) (members : list (Header * Reader))
    (final : option error) (st : scan_state) : outcome (scan_state + Error) :=
  match members with
  | [] =>
      match final with
      | None => Ret (inl st)
      | Some err =>
          Ret (inr (mkError "cannot read decompressed TAR file" fs (Some err)))
      end
  | (header, body) :: rest =>
      r ← scan_member fs st header body;
      match r with
      | inl st' => scan_members fs rest final st'
      | inr e => Ret (inr e)
      end
  end.

(** The two warnings of the second loop of [ScanPuzzle], as [Sprintf]
    prints them. *)
Definition missing_warning (i : Z) : string :=
  "missing " +:+ dquote +:+ pretty i +:+ ".png" +:+ dquote.

Definition members_warning (n i : Z) : string :=
  pretty n +:+ " members named " +:+ dquote +:+ pretty i +:+ ".png" +:+ dquote.

(** What the second loop of [ScanPuzzle] appends for position [i] when
    it reads the count [n] there. *)
Definition piece_warning (n i : Z) : list string :=
  if n =? 0 then [missing_warning i]
  else if n >? 1 then [members_warning n i]
  else [].

(** The second loop of [ScanPuzzle], over the positions [range]. *)
Fixpoint report_pieces (found : list Z) (range : list Z)
    (warnings : list string) : outcome (list string) :=
  match range with
  | [] => Ret warnings
  | i :: range' =>
      n ← index_at found i;
      report_pieces found range' (warnings ++ piece_warning n i)
  end.

(** [ScanPuzzle] reads a .puzzle file, does some checking and returns a
    PuzzleInfo or an error (but not both). *)
Definition ScanPuzzle (os : OS) (fs : string)
  : outcome (option PuzzleInfo * option Error) :=
  let ret0 := PuzzleInfo_zero in
  match os fs with
  | inr err => Ret (None, Some (mkError "cannot open" fs (Some err)))
  | inl f =>
      let (dir, file) := Split fs in
      let ret1 := set_Filename file (set_Dir dir ret0) in
      match file_Stat f with
      | inr err => Ret (None, Some (mkError "cannot examine" fs (Some err)))
      | inl size =>
          let ret2 := set_PuzzleFileSize size ret1 in
          match file_gzip f with
          | inr err =>
              Ret (None, Some (mkError "cannot decompress" fs (Some err)))
          | inl tr =>
              found0 ← make 512;
              r ← scan_members fs (tar_members tr) (tar_end tr)
                     (mkState ret2 (-1) found0);
              match r with
              | inr e => Ret (None, Some e)
              | inl st =>
                  warnings ← report_pieces (piecesFound st)
                                (seqZ 0 (maxPieceNum st))
                                (Warnings (ret st));
                  Ret (Some (set_NPieceFiles (wrap_int (maxPieceNum st + 1))
                               (set_Warnings warnings (ret st))),
                       None)
              end
          end
      end
  end.

(** [Error.Error] of palapuzzle.go. *)
Definition Error_Error (e : Error) : string :=
  let baseErrStr :=
    match BaseError e with
    | Some be =>
        let be' := match be with
                   | PathError _ _ err => err
                   | _ => be
                   end in
        ": " +:+ error_Error be'
    | None => EmptyString
    end in
  "cannot " +:+ Action e +:+ " " +:+ dquote +:+ FilePath e +:+ dquote
  +:+ baseErrStr.

End Palapuzzle.

(** ** The earlier revision of the package (part_000)

    Its [PuzzleInfo] has no [PuzzleFileSize], which stays 0 here, and its
    [ScanPuzzle] does not call [Stat]. The two loops and
    [scanPalaDesktopFile] are those of palapuzzle.go. Its [Error.Error]
    calls the method of the base error without a test for nil. *)
Module Part000.
Section Part000.

Variable quote : string -> string.

Definition ScanPuzzle (os : OS) (fs : string)
  : outcome (option PuzzleInfo * option Error) :=
  let ret0 := PuzzleInfo_zero in
  match os fs with
  | inr err => Ret (None, Some (mkError "cannot open" fs (Some err)))
  | inl f =>
      let (dir, file) := Split fs in
      let ret1 := set_Filename file (set_Dir dir ret0) in
      match file_gzip f with
      | inr err =>
          Ret (None, Some (mkError "cannot decompress" fs (Some err)))
      | inl tr =>
          found0 ← make 512;
          r ← scan_members quote fs (tar_members tr) (tar_end tr)
                (mkState ret1 (-1) found0);
          match r with
          | inr e => Ret (None, Some e)
          | inl st =>
              warnings ← report_pieces (piecesFound st)
                            (seqZ 0 (maxPieceNum st))
                            (Warnings (ret st));
              Ret (Some (set_NPieceFiles (wrap_int (maxPieceNum st + 1))
                           (set_Warnings warnings (ret st))),
                   None)
          end
      end
  end.

Definition Error_Error (e : Error) : outcome string :=
  match BaseError e with
  | Some be =>
      let be' := match be with
                 | PathError _ _ err => err
                 | _ => be
                 end in
      let baseErrStr := ": " +:+ error_Error quote be' in
      Ret ("cannot " +:+ Action e +:+ " " +:+ dquote +:+ FilePath e +:+ dquote
           +:+ baseErrStr)
  | None => Panic NilDereference
  end.

End Part000.
End Part000.

(** ** Archives for the examples *)

(** A file system with the one archive [tr] at the path [fs]. *)
Definition one_archive (fs : string) (size : Z) (tr : tar_Reader) : OS :=
  fun path =>
    if String.eqb path fs then inl (mkFile (inl size) (inl tr))
    else inr (PathError "open" path (ErrorString "no such file or directory")).

(** A member of an archive whose content is read without an error, and
    a member without content. *)
Definition member (name : string) (size : Z) (data : string)
  : Header * Reader := (mkHeader name size, mkReader data None).

Definition piece (name : string) : Header * Reader := member name 0 EmptyString.

Definition nl : string := str_of_codes [10%nat].

Definition puzzle_path : string := "puzzles/castle.puzzle".

(** The archive of 4096 bytes at [puzzle_path] with the given members,
    read to its end without an error. *)
Definition archive (members : list (Header * Reader)) : OS :=
  one_archive puzzle_path 4096 (mkTar members None).

(** Two members named 3.png and no higher piece, and the record of the
    scan. *)
Definition two_3png : OS :=
  archive [piece "0.png"; piece "1.png"; piece "2.png"; piece "3.png";
           piece "3.png"].

Definition two_3png_record : PuzzleInfo :=
  mkPuzzleInfo "puzzles/" "castle.puzzle" EmptyString EmptyString EmptyString
    [] 4 0 0 4096.

(** The pieces 0 and 2 without the piece 1, in both orders, and the
    record of either scan. *)
Definition pieces_0_2 : OS := archive [piece "0.png"; piece "2.png"].
Definition pieces_2_0 : OS := archive [piece "2.png"; piece "0.png"].

Definition pieces_0_2_record : PuzzleInfo :=
  mkPuzzleInfo "puzzles/" "castle.puzzle" EmptyString EmptyString EmptyString
    [missing_warning 1] 3 0 0 4096.

(** A descriptor, an image and the pieces 0 to 4; and the same without a
    piece. *)
Definition castle_desktop : string :=
  "[Desktop Entry]" +:+ nl +:+ "Name=Foo" +:+ nl +:+ "PieceCount=5" +:+ nl.

Definition five_pieces : OS :=
  archive [member "pala.desktop" 41 castle_desktop;
           member "image.jpg" 7777 EmptyString;
           piece "0.png"; piece "1.png"; piece "2.png"; piece "3.png";
           piece "4.png"].

Definition five_pieces_record : PuzzleInfo :=
  mkPuzzleInfo "puzzles/" "castle.puzzle" "Foo" EmptyString EmptyString
    [] 5 5 7777 4096.

Definition no_piece : OS :=
  archive [member "pala.desktop" 41 castle_desktop;
           member "image.jpg" 7777 EmptyString; piece "readme.txt"].

Definition no_piece_record : PuzzleInfo :=
  mkPuzzleInfo "puzzles/" "castle.puzzle" "Foo" EmptyString EmptyString
    [] 0 5 7777 4096.

(** A descriptor whose declared count does not parse. *)
Definition bad_count : OS :=
  archive [member "pala.desktop" 30
             ("Name=Foo" +:+ nl +:+ "PieceCount=abc" +:+ nl);
           piece "0.png"].

Definition bad_count_record : PuzzleInfo :=
  mkPuzzleInfo "puzzles/" "castle.puzzle" "Foo" EmptyString EmptyString
    ["bad PieceCount " +:+ dquote +:+ "abc" +:+ dquote] 1 (-1) 0 4096.

(** The content of a descriptor with a comment of 70000 bytes, read
    without an error. *)
Definition long_comment : Reader :=
  mkReader ("Comment=" +:+ string_repeat "x"%char (Z.to_nat 70000) +:+ nl
            +:+ "Name=Foo" +:+ nl)
    None.

(** A piece with the number 2^62. *)
Definition large_piece : OS := archive [piece "4611686018427387904.png"].

(** Two images, and the piece 1 twice. *)
Definition two_images : OS :=
  archive [member "image.jpg" 10 EmptyString; piece "1.png"; piece "0.png";
           member "image.jpg" 20 EmptyString; piece "1.png"; piece "2.png"].

Definition two_images_record : PuzzleInfo :=
  mkPuzzleInfo "puzzles/" "castle.puzzle" EmptyString EmptyString EmptyString
    [members_warning 2 1] 3 0 20 4096.

(** [n] members named 0.png and one named 1.png. *)
Definition many_0png (n : nat) : OS :=
  archive (List.repeat (piece "0.png") n ++ [piece "1.png"]).

Definition many_0png_record (warnings : list string) : PuzzleInfo :=
  mkPuzzleInfo "puzzles/" "castle.puzzle" EmptyString EmptyString EmptyString
    warnings 2 0 0 4096.

(** Two descriptors with a piece between them: the second one gives the
    title again, and each has a count that does not parse. *)
Definition two_descriptors : OS :=
  archive [member "pala.desktop" 40
             ("Name=Foo" +:+ nl +:+ "Comment=old" +:+ nl
              +:+ "PieceCount=x" +:+ nl);
           piece "0.png";
           member "pala.desktop" 40
             ("Name= Bar " +:+ nl +:+ "Name[de]=Burg" +:+ nl
              +:+ "PieceCount=2" +:+ nl +:+ "020_PieceCount=y")].

Definition two_descriptors_record : PuzzleInfo :=
  mkPuzzleInfo "puzzles/" "castle.puzzle" "Bar" EmptyString "old"
    ["bad PieceCount " +:+ dquote +:+ "x" +:+ dquote;
     "bad PieceCount " +:+ dquote +:+ "y" +:+ dquote]
    1 (-1) 0 4096.

(** The pieces 2, 0 and 1, in this order. *)
Definition shuffled_pieces : OS :=
  archive [piece "2.png"; piece "0.png"; piece "1.png"].

Definition shuffled_pieces_record : PuzzleInfo :=
  mkPuzzleInfo "puzzles/" "castle.puzzle" EmptyString EmptyString EmptyString
    [] 3 0 0 4096.

(** A descriptor, an image and three pieces, the pieces between the
    other members and ahead of them. *)
Definition pieces_between : OS :=
  archive [member "pala.desktop" 12 ("Name=Castle" +:+ nl);
           piece "2.png";
           member "image.jpg" 900 EmptyString;
           piece "0.png"; piece "0.png"].

Definition pieces_ahead : OS :=
  archive [piece "0.png"; piece "2.png"; piece "0.png";
           member "pala.desktop" 12 ("Name=Castle" +:+ nl);
           member "image.jpg" 900 EmptyString].

Definition moved_pieces_record : PuzzleInfo :=
  mkPuzzleInfo "puzzles/" "castle.puzzle" "Castle" EmptyString EmptyString
    ["2 members named " +:+ dquote +:+ "0.png" +:+ dquote;
     "missing " +:+ dquote +:+ "1.png" +:+ dquote]
    3 0 900 4096.

(** A piece, a name of twenty digits, and a descriptor that is not
    reached. *)
Definition long_number : OS :=
  archive [piece "0.png"; piece "99999999999999999999.png";
           member "pala.desktop" 9 "Name=Foo"].

Definition long_number_error : Error :=
  mkError ("bad member name " +:+ dquote +:+ "99999999999999999999.png"
           +:+ dquote)
    puzzle_path (Some (NumError "Atoi" "99999999999999999999" ErrRange)).

(** ** What a scan is about: the piece numbers of an archive *)

(** The piece number of a member: its name matches and the digits parse. *)
Definition piece_number (header : Header) : option Z :=
  match rePieceName (Name header) with
  | Some m1 => match Atoi m1 with inl i => Some i | inr _ => None end
  | None => None
  end.

(** The piece numbers of the members, in archive order. *)
Definition piece_numbers (members : list (Header * Reader)) : list Z :=
  omap (fun m => piece_number (fst m)) members.

(** How many times [i] occurs among the piece numbers [l]. *)
Definition occurrences (i : Z) (l : list Z) : Z :=
  Z.of_nat (count_occ Z.eq_dec l i).

(** The highest piece number, or -1 when there is none. *)
Definition highest (l : list Z) : Z := fold_right Z.max (-1) l.

(** The warnings about the piece numbers [l], from their counts: the
    positions below the highest number, in ascending order, each with the
    count a byte holds. *)
Definition tally_warnings (l : list Z) : list string :=
  flat_map (fun i => piece_warning (occurrences i l mod 256) i)
    (seqZ 0 (highest l)).

(** The members of the archive at [fs]. *)
Definition archive_members (os : OS) (fs : string) : list (Header * Reader) :=
  match os fs with
  | inl f => match file_gzip f with
             | inl tr => tar_members tr
             | inr _ => []
             end
  | inr _ => []
  end.

(** The size [Stat] gives for the file at [fs]. *)
Definition archive_size (os : OS) (fs : string) : Z :=
  match os fs with
  | inl f => match file_Stat f with inl size => size | inr _ => 0 end
  | inr _ => 0
  end.

(** The record before the first member is read. *)
Definition first_record (fs : string) (size : Z) : PuzzleInfo :=
  set_PuzzleFileSize size
    (set_Filename (snd (Split fs)) (set_Dir (fst (Split fs)) PuzzleInfo_zero)).

(** The five keys of the descriptor that [scan_line] knows. *)
Definition recognized_key (key : string) : bool :=
  String.eqb key "Name" || String.eqb key "X-KDE-PluginInfo-Author"
  || String.eqb key "Comment" || String.eqb key "PieceCount"
  || String.eqb key "020_PieceCount".

(** The two keys of the declared count. *)
Definition count_key (key : string) : bool :=
  String.eqb key "PieceCount" || String.eqb key "020_PieceCount".

(** The characters of a decimal number as [%d] prints it. *)
Definition decimal_char (c : ascii) : bool :=
  is_digit c || Ascii.eqb c "-"%char.

(** A line that sets the declared count. *)
Definition declares_count (line : string) : bool :=
  match reKeyValue line with
  | Some (key, _) => count_key key
  | None => false
  end.

(** The lines of the descriptors of an archive, in order. *)
Definition descriptor_lines (members : list (Header * Reader)) : list string :=
  flat_map (fun m => if String.eqb (Name (fst m)) "pala.desktop"
                     then fst (Scanner_run (snd m)) else [])
    members.

(** Some line of [data] does not fit the buffer of the scanner: a line
    before a newline of [MaxScanTokenSize] bytes or more, or more than
    [MaxScanTokenSize] bytes after the last newline. *)
Definition too_long_line (data : string) : Prop :=
  let all := fst (segments data) :: snd (segments data) in
  Exists (fun seg => MaxScanTokenSize <= Z.of_nat (String.length seg))
    (removelast all)
  \/ MaxScanTokenSize < Z.of_nat (String.length (List.last all EmptyString)).

(** The earlier revision scans as the later one does where [Stat] gives
    the size 0. *)
Definition without_Stat (os : OS) : OS :=
  fun path =>
    match os path with
    | inl f => inl (mkFile (inl 0) (file_gzip f))
    | inr err => inr err
    end.

(** The sizes of the members named image.jpg, in archive order. *)
Definition image_sizes (members : list (Header * Reader)) : list Z :=
  map (fun m => Size (fst m))
    (List.filter (fun m => String.eqb (Name (fst m)) "image.jpg") members).

(** The text [cannot <action> "<path>"] with the cause after a colon
    when there is one. *)
Definition rendering (action path : string) (cause : option string) : string :=
  "cannot " +:+ action +:+ " " +:+ dquote +:+ path +:+ dquote
  +:+ match cause with
      | Some c => ": " +:+ c
      | None => EmptyString
      end.

(** The tally after the piece numbers [seen]: every one of them is a
    position of the buffer, whose length is an [int], and every position
    holds the count of its number, in a byte. *)
Definition tally_of (seen : list Z) (st : scan_state) : Prop :=
  512 <= len (piecesFound st) <= maxInt /\
  maxPieceNum st = highest seen /\
  (forall i, In i seen -> 0 <= i < len (piecesFound st)) /\
  (forall j : nat, (j < length (piecesFound st))%nat ->
     piecesFound st !! j = Some (occurrences (Z.of_nat j) seen mod 256)).

(** The characters other than the equals sign, the newline and the
    slash. *)
Definition not_equals (c : ascii) : bool := negb (Ascii.eqb c "="%char).

Definition not_newline (c : ascii) : bool := negb (is_newline c).

Definition not_slash (c : ascii) : bool := negb (Ascii.eqb c "/"%char).

(** The value of a line for the key [key]: the text after the equals
    sign, trimmed. *)
Definition line_field (key line : string) : option string :=
  match reKeyValue line with
  | Some (k, m2) => if String.eqb k key then Some (TrimSpace m2) else None
  | None => None
  end.

(** The declared count a line gives: the number, or -1 for a value that
    does not parse. *)
Definition line_count (line : string) : option Z :=
  match reKeyValue line with
  | Some (k, m2) =>
      if count_key k
      then Some (match Atoi (TrimSpace m2) with inl n => n | inr _ => -1 end)
      else None
  | None => None
  end.

(** A member the scan reads: a piece, the image or a descriptor. *)
Definition relevant (m : Header * Reader) : bool :=
  match rePieceName (Name (fst m)) with
  | Some _ => true
  | None => String.eqb (Name (fst m)) "image.jpg"
            || String.eqb (Name (fst m)) "pala.desktop"
  end.

(** The state [st] with the size [v] of the file in its record. *)
Definition resize (v : Z) (st : scan_state) : scan_state :=
  mkState (set_PuzzleFileSize v (ret st)) (maxPieceNum st) (piecesFound st).

(** What the earlier revision returns where the later one returns [o]:
    the same, with the size of the file left at 0 in a record. *)
Definition without_size (o : outcome (option PuzzleInfo * option Error))
  : outcome (option PuzzleInfo * option Error) :=
  match o with
  | Ret (Some r, e) => Ret (Some (set_PuzzleFileSize 0 r), e)
  | other => other
  end.

Section Properties.

Variable quote : string -> string.

(** What a member other than a piece leaves in the record. *)
Definition record_member (p : PuzzleInfo) (m : Header * Reader) : PuzzleInfo :=
  match rePieceName (Name (fst m)) with
  | Some _ => p
  | None =>
      if String.eqb (Name (fst m)) "image.jpg"
      then set_ImageFileSize (Size (fst m)) p
      else if String.eqb (Name (fst m)) "pala.desktop"
      then fst (scanPalaDesktopFile quote (snd m) p)
      else p
  end.

(** The record of the members other than the pieces: what the
    descriptors and the image leave in it. *)
Definition members_record (os : OS) (fs : string) : PuzzleInfo :=
  fold_left record_member (archive_members os fs)
    (first_record fs (archive_size os fs)).

(** The form of the warning about a declared count. *)
Definition bad_count_warning (w : string) : Prop :=
  exists value, w = "bad PieceCount " +:+ quote value.

(** The warning a line of the descriptor gives. *)
Definition line_warning (line : string) : option string :=
  match reKeyValue line with
  | Some (k, m2) =>
      if count_key k
      then match Atoi (TrimSpace m2) with
           | inl _ => None
           | inr _ => Some ("bad PieceCount " +:+ quote (TrimSpace m2))
           end
      else None
  | None => None
  end.

(** The error a member makes a scan of [fs] return, in whatever state
    the scan is: the name of a piece whose digits are no [int], or a
    descriptor whose lines cannot be read to the end. *)
Definition member_error (fs : string) (m : Header * Reader) : option Error :=
  match rePieceName (Name (fst m)) with
  | Some m1 =>
      match Atoi m1 with
      | inr err =>
          Some (mkError ("bad member name " +:+ quote (Name (fst m))) fs
                  (Some err))
      | inl _ => None
      end
  | None =>
      if String.eqb (Name (fst m)) "pala.desktop"
      then option_map
             (fun err =>
                mkError ("cannot read " +:+ dquote +:+ "pala.desktop"
                         +:+ dquote +:+ " member in ")
                  fs (Some err))
             (snd (Scanner_run (snd m)))
      else None
  end.

(** The error of the first member that has one, or else of the end of
    the archive. *)
Definition first_failure (fs : string) (members : list (Header * Reader))
    (final : option error) : option Error :=
  match omap (member_error fs) members with
  | e :: _ => Some e
  | [] =>
      option_map
        (fun err => mkError "cannot read decompressed TAR file" fs (Some err))
        final
  end.

(** The error of the first step of a scan that fails: opening the file,
    its size, its decompression, its members in order, its end. *)
Definition scan_error (os : OS) (fs : string) : option Error :=
  match os fs with
  | inr err => Some (mkError "cannot open" fs (Some err))
  | inl f =>
      match file_Stat f, file_gzip f with
      | inr err, _ => Some (mkError "cannot examine" fs (Some err))
      | inl _, inr err => Some (mkError "cannot decompress" fs (Some err))
      | inl _, inl tr => first_failure fs (tar_members tr) (tar_end tr)
      end
  end.

(** *** Integers *)

Lemma wrap_int_id z : minInt <= z <= maxInt -> wrap_int z = z.
Proof.
  unfold wrap_int, minInt, maxInt. intros H.
  rewrite Z.mod_small; lia.
Qed.

Lemma wrap_int_double_neg i :
  2 ^ 62 <= i <= maxInt -> wrap_int (2 * i) < 0.
Proof.
  unfold wrap_int, maxInt. intros H.
  replace (2 * i + 2 ^ 63) with (2 * i - 2 ^ 63 + 1 * 2 ^ 64) by lia.
  rewrite Z.mod_add by lia. rewrite Z.mod_small; lia.
Qed.

Lemma digits_value_range acc s v :
  0 <= acc -> digits_value acc s = Some v -> 0 <= v.
Proof.
  revert acc. induction s as [|c r IH]; simpl; intros acc Hacc Hv.
  - congruence.
  - destruct (is_digit c) eqn:Hd; [|discriminate].
    unfold is_digit in Hd. apply andb_prop in Hd as [H1 _].
    apply Nat.leb_le in H1. eapply IH; [|exact Hv]. lia.
Qed.

Lemma Atoi_range s n : Atoi s = inl n -> minInt <= n <= maxInt.
Proof.
  unfold Atoi.
  destruct (match s with
            | String "-"%char r => (true, r)
            | String "+"%char r => (false, r)
            | _ => (false, s)
            end) as [neg body].
  destruct body; [discriminate|].
  destruct (digits_value 0 _); [|discriminate].
  destruct (_ && _) eqn:Hr; [|discriminate].
  intros [= <-]. apply andb_prop in Hr as [H1 H2]. lia.
Qed.

(** *** Counting *)

Lemma occurrences_nil i : occurrences i [] = 0.
Proof. reflexivity. Qed.

Lemma occurrences_nonneg i l : 0 <= occurrences i l.
Proof. unfold occurrences. lia. Qed.

Lemma occurrences_snoc i l j :
  occurrences i (l ++ [j]) = occurrences i l + (if decide (j = i) then 1 else 0).
Proof.
  unfold occurrences. rewrite count_occ_app. simpl.
  destruct (Z.eq_dec j i), (decide (j = i)); try contradiction; lia.
Qed.

Lemma occurrences_cons i l j :
  occurrences i (j :: l) = (if decide (j = i) then 1 else 0) + occurrences i l.
Proof.
  unfold occurrences. simpl.
  destruct (Z.eq_dec j i), (decide (j = i)); try contradiction; lia.
Qed.

Lemma occurrences_zero i l : ~ In i l -> occurrences i l = 0.
Proof.
  intros H. unfold occurrences.
  apply (count_occ_not_In Z.eq_dec) in H. lia.
Qed.

Lemma occurrences_pos i l : In i l -> 0 < occurrences i l.
Proof.
  intros H. unfold occurrences.
  apply (count_occ_In Z.eq_dec) in H. lia.
Qed.

Lemma occurrences_Permutation i l l' :
  Permutation l l' -> occurrences i l = occurrences i l'.
Proof.
  intros H. unfold occurrences. f_equal.
  induction H; simpl; try destruct (Z.eq_dec _ _); try destruct (Z.eq_dec _ _);
    congruence.
Qed.

Lemma highest_ge_m1 l : -1 <= highest l.
Proof. induction l; simpl; lia. Qed.

Lemma highest_In_le i l : In i l -> i <= highest l.
Proof.
  induction l as [|j l IH]; simpl; [tauto|].
  intros [->|H]; [lia|]. specialize (IH H). lia.
Qed.

Lemma highest_In l :
  l <> [] -> (forall i, In i l -> 0 <= i) -> In (highest l) l.
Proof.
  induction l as [|j l IH]; [congruence|]. intros _ Hpos. simpl.
  destruct l as [|k l'].
  - left. simpl. specialize (Hpos j (or_introl eq_refl)). lia.
  - assert (Hin : In (highest (k :: l')) (k :: l')).
    { apply IH; [congruence|]. intros i Hi. apply Hpos. now right. }
    destruct (Z.max_spec j (highest (k :: l'))) as [[_ ->]|[_ ->]];
      [now right|now left].
Qed.

Lemma highest_snoc l i : highest (l ++ [i]) = Z.max (highest l) i.
Proof. induction l as [|j l IH]; simpl; [lia|]. rewrite IH. lia. Qed.

Lemma highest_Permutation l l' : Permutation l l' -> highest l = highest l'.
Proof. induction 1; simpl; lia. Qed.

(** *** The tally buffer *)

Lemma len_nonneg s : 0 <= len s.
Proof. unfold len. lia. Qed.

Lemma make_Ret n s : make n = Ret s -> 0 <= n /\ s = replicate (Z.to_nat n) 0.
Proof.
  unfold make. destruct (n <? 0) eqn:Hn; [discriminate|].
  destruct (maxAlloc <? n); [discriminate|].
  intros [= <-]. apply Z.ltb_ge in Hn. auto.
Qed.

Lemma make_in_range n :
  0 <= n <= maxAlloc -> make n = Ret (replicate (Z.to_nat n) 0).
Proof.
  intros [H0 H1]. unfold make.
  destruct (n <? 0) eqn:Hn; [apply Z.ltb_lt in Hn; lia|].
  destruct (maxAlloc <? n) eqn:Hm; [apply Z.ltb_lt in Hm; lia|].
  reflexivity.
Qed.

Lemma make_above n : maxAlloc < n -> make n = Panic MakesliceLenOutOfRange.
Proof.
  intros H. unfold make. apply Z.ltb_lt in H. rewrite H.
  now rewrite orb_true_r.
Qed.

Lemma copy_into_zeros n found :
  (length found <= n)%nat ->
  copy (replicate n 0) found = found ++ replicate (n - length found) 0.
Proof.
  intros H. unfold copy. rewrite length_replicate.
  rewrite take_ge by lia. now rewrite drop_replicate.
Qed.

Lemma incr_at_Ret found i found' :
  incr_at found i = Ret found' ->
  exists b, 0 <= i < len found /\ found !! Z.to_nat i = Some b /\
            found' = <[Z.to_nat i := wrap_byte (b + 1)]> found.
Proof.
  unfold incr_at. destruct (i <? 0) eqn:Hi; [discriminate|].
  apply Z.ltb_ge in Hi.
  destruct (found !! Z.to_nat i) as [b|] eqn:Hb; [|discriminate].
  intros [= <-]. exists b. repeat split; auto.
  apply lookup_lt_Some in Hb. unfold len. lia.
Qed.

Lemma incr_at_in_range found i :
  0 <= i < len found -> exists found', incr_at found i = Ret found'.
Proof.
  intros [H0 H1]. unfold incr_at.
  destruct (i <? 0) eqn:Hi; [apply Z.ltb_lt in Hi; lia|].
  destruct (found !! Z.to_nat i) as [b|] eqn:Hb; [eauto|].
  apply lookup_ge_None in Hb. unfold len in H1. lia.
Qed.

Lemma index_at_in_range found i b :
  0 <= i -> found !! Z.to_nat i = Some b -> index_at found i = Ret b.
Proof.
  intros H0 Hb. unfold index_at.
  destruct (i <? 0) eqn:Hi; [apply Z.ltb_lt in Hi; lia|]. now rewrite Hb.
Qed.

(** The part of [scan_member] that makes room for position [i]. *)
Lemma grow_Ret found i found1 :
  minInt <= i <= maxInt -> 1 <= len found <= maxInt ->
  (if i >=? len found
   then newSlice ← make (wrap_int (2 * i)); Ret (copy newSlice found)
   else Ret found) = Ret found1 ->
  i < len found1 /\ len found <= len found1 <= maxInt /\
  exists k, found1 = found ++ replicate k 0.
Proof.
  intros Hi Hlen. destruct (i >=? len found) eqn:Hge.
  - apply Z.geb_le in Hge.
    destruct (make (wrap_int (2 * i))) as [newSlice|] eqn:Hmake;
      [|discriminate].
    simpl. intros [= <-]. apply make_Ret in Hmake as [Hn ->].
    assert (Hlt : i < 2 ^ 62).
    { destruct (Z_lt_ge_dec i (2 ^ 62)) as [|Hbig]; [assumption|].
      pose proof (wrap_int_double_neg i ltac:(lia)). lia. }
    rewrite wrap_int_id in * by (unfold minInt, maxInt in *; lia).
    unfold len, maxInt in *.
    rewrite copy_into_zeros by lia.
    rewrite length_app, length_replicate.
    repeat split; [lia|lia|lia|eauto].
  - intros [= <-]. rewrite Z.geb_leb in Hge. apply Z.leb_gt in Hge.
    repeat split; [lia|lia|lia|exists 0%nat; now rewrite app_nil_r].
Qed.

(** A position with more than 2^62 - 1 in it, past the end of the buffer,
    makes [make] panic: the length 2 * i wraps around to a negative
    number. *)
Lemma grow_Panic found i :
  2 ^ 62 <= i <= maxInt -> len found <= i ->
  (if i >=? len found
   then newSlice ← make (wrap_int (2 * i)); Ret (copy newSlice found)
   else Ret found) = Panic MakesliceLenOutOfRange.
Proof.
  intros Hi Hlen. destruct (i >=? len found) eqn:Hge.
  - pose proof (wrap_int_double_neg i Hi) as Hneg. unfold make.
    destruct (wrap_int (2 * i) <? 0) eqn:Hn; [reflexivity|].
    apply Z.ltb_ge in Hn. lia.
  - rewrite Z.geb_leb in Hge. apply Z.leb_gt in Hge. lia.
Qed.

(** So does a position above 2^47 past the end of the buffer: the length
    2 * i is negative, or above [maxAlloc]. *)
Lemma grow_Panic_alloc found i :
  2 ^ 47 < i <= maxInt -> len found <= i ->
  (if i >=? len found
   then newSlice ← make (wrap_int (2 * i)); Ret (copy newSlice found)
   else Ret found) = Panic MakesliceLenOutOfRange.
Proof.
  intros Hi Hlen. destruct (Z_lt_ge_dec i (2 ^ 62)) as [Hsmall|Hbig].
  - destruct (i >=? len found) eqn:Hge.
    + rewrite wrap_int_id by (unfold minInt, maxInt in *; lia).
      rewrite make_above by (unfold maxAlloc; lia). reflexivity.
    + rewrite Z.geb_leb in Hge. apply Z.leb_gt in Hge. lia.
  - apply grow_Panic; lia.
Qed.

Lemma tally_of_init p : tally_of [] (mkState p (-1) (replicate 512 0)).
Proof.
  unfold tally_of, len, maxInt. cbn [piecesFound maxPieceNum].
  rewrite length_replicate.
  split; [lia|]. split; [reflexivity|]. split.
  - intros i [].
  - intros j Hj. rewrite lookup_replicate_2 by lia. reflexivity.
Qed.

Lemma scan_member_piece fs st header body m1 i :
  rePieceName (Name header) = Some m1 -> Atoi m1 = inl i ->
  scan_member quote fs st header body =
    (found ← (if i >=? len (piecesFound st)
              then newSlice ← make (wrap_int (2 * i));
                   Ret (copy newSlice (piecesFound st))
              else Ret (piecesFound st));
     found' ← incr_at found i;
     Ret (inl (mkState (ret st)
                 (if i >? maxPieceNum st then i else maxPieceNum st)
                 found'))).
Proof. intros H1 H2. unfold scan_member. now rewrite H1, H2. Qed.

(** One more piece: the tally counts it. *)
Lemma scan_member_piece_tally fs st header body m1 i seen st' :
  rePieceName (Name header) = Some m1 -> Atoi m1 = inl i ->
  tally_of seen st ->
  scan_member quote fs st header body = Ret (inl st') ->
  tally_of (seen ++ [i]) st' /\ ret st' = ret st.
Proof.
  intros H1 H2 (Hlen & Hmax & Hseen & Htally) Hstep.
  rewrite (scan_member_piece _ _ _ _ _ _ H1 H2) in Hstep.
  pose proof (Atoi_range _ _ H2) as Hi.
  destruct (if i >=? len (piecesFound st) then _ else _)
    as [found1|] eqn:Hgrow; [|discriminate].
  apply grow_Ret in Hgrow as (Hi1 & Hlen1 & k & ->); [|assumption|lia].
  simpl in Hstep.
  destruct (incr_at _ i) as [found'|] eqn:Hincr; [|discriminate].
  simpl in Hstep. injection Hstep as <-.
  apply incr_at_Ret in Hincr as (b & Hib & Hb & ->).
  split; [|reflexivity].
  unfold tally_of. cbn [piecesFound maxPieceNum].
  assert (Hlen' : len (<[Z.to_nat i:=wrap_byte (b + 1)]>
                         (piecesFound st ++ replicate k 0))
                  = len (piecesFound st ++ replicate k 0)).
  { unfold len. now rewrite length_insert. }
  rewrite Hlen'. split; [lia|]. split; [|split].
  - rewrite highest_snoc, Hmax.
    destruct (i >? highest seen) eqn:Hgt.
    + apply Z.gtb_lt in Hgt. lia.
    + rewrite Z.gtb_ltb in Hgt. apply Z.ltb_ge in Hgt. lia.
  - intros i' H. apply in_app_or in H as [H|[<-|[]]];
      [apply Hseen in H|]; lia.
  - intros j Hj. rewrite length_insert in Hj.
    assert (Hold : (piecesFound st ++ replicate k 0) !! j
                   = Some (occurrences (Z.of_nat j) seen mod 256)).
    { destruct (decide (j < length (piecesFound st))%nat) as [Hin|Hout].
      - rewrite lookup_app_l by assumption. now apply Htally.
      - rewrite lookup_app_r by lia.
        rewrite length_app, length_replicate in Hj.
        rewrite lookup_replicate_2 by lia.
        rewrite occurrences_zero; [reflexivity|].
        intros Hin. apply Hseen in Hin. unfold len in Hin. lia. }
    rewrite occurrences_snoc.
    destruct (decide (i = Z.of_nat j)) as [->|Hne].
    + rewrite Nat2Z.id in *. rewrite list_lookup_insert_eq by assumption.
      rewrite Hold in Hb. injection Hb as <-.
      unfold wrap_byte. now rewrite Z.add_mod_idemp_l by lia.
    + rewrite list_lookup_insert_ne by lia. now rewrite Z.add_0_r.
Qed.

(** *** The loop over the members *)

Lemma scan_member_other fs st header body st' :
  rePieceName (Name header) = None ->
  scan_member quote fs st header body = Ret (inl st') ->
  st' = mkState (record_member (ret st) (header, body))
          (maxPieceNum st) (piecesFound st).
Proof.
  intros Hname. unfold scan_member, record_member. cbn [fst snd].
  rewrite Hname.
  destruct (String.eqb (Name header) "image.jpg"); [now intros [= <-]|].
  destruct (String.eqb (Name header) "pala.desktop").
  - destruct (scanPalaDesktopFile quote body (ret st)) as [out [e|]];
      [discriminate|]. now intros [= <-].
  - intros [= <-]. now destruct st.
Qed.

Lemma piece_numbers_cons_piece header body rest m1 i :
  rePieceName (Name header) = Some m1 -> Atoi m1 = inl i ->
  piece_numbers ((header, body) :: rest) = i :: piece_numbers rest.
Proof.
  intros H1 H2. unfold piece_numbers. cbn [omap list_omap fst].
  unfold piece_number at 1. now rewrite H1, H2.
Qed.

Lemma piece_numbers_cons_other header body rest :
  rePieceName (Name header) = None ->
  piece_numbers ((header, body) :: rest) = piece_numbers rest.
Proof.
  intros H1. unfold piece_numbers. cbn [omap list_omap fst].
  unfold piece_number at 1. now rewrite H1.
Qed.

Lemma record_member_piece p header body m1 :
  rePieceName (Name header) = Some m1 ->
  record_member p (header, body) = p.
Proof. intros H. unfold record_member. cbn [fst]. now rewrite H. Qed.

(** A loop that comes to its end has read the archive to [io.EOF], has
    counted every piece number, and has recorded every other member. *)
Lemma scan_members_Ret fs members final :
  forall st seen st',
    tally_of seen st ->
    scan_members quote fs members final st = Ret (inl st') ->
    final = None /\
    tally_of (seen ++ piece_numbers members) st' /\
    ret st' = fold_left record_member members (ret st).
Proof.
  induction members as [|[header body] rest IH]; intros st seen st' Hinv Hrun.
  - simpl in Hrun. destruct final; [discriminate|].
    injection Hrun as <-. rewrite app_nil_r. auto.
  - simpl in Hrun.
    destruct (scan_member quote fs st header body) as [[st1|e]|] eqn:Hstep;
      simpl in Hrun; try discriminate.
    destruct (rePieceName (Name header)) as [m1|] eqn:Hname.
    + destruct (Atoi m1) as [i|err] eqn:Hi.
      * destruct (scan_member_piece_tally _ _ _ _ _ _ _ _ Hname Hi Hinv Hstep)
          as [Hinv1 Hret1].
        destruct (IH _ _ _ Hinv1 Hrun) as (Hf & Hinv' & Hret').
        rewrite (piece_numbers_cons_piece _ _ _ _ _ Hname Hi).
        rewrite <- app_assoc in Hinv'. cbn [fold_left].
        rewrite (record_member_piece _ _ _ _ Hname).
        rewrite <- Hret1. auto.
      * unfold scan_member in Hstep. rewrite Hname, Hi in Hstep.
        discriminate.
    + pose proof (scan_member_other _ _ _ _ _ Hname Hstep) as ->.
      assert (Hinv1 : tally_of seen
                (mkState (record_member (ret st) (header, body))
                   (maxPieceNum st) (piecesFound st))) by exact Hinv.
      destruct (IH _ _ _ Hinv1 Hrun) as (Hf & Hinv' & Hret').
      rewrite (piece_numbers_cons_other _ _ _ Hname). auto.
Qed.

(** *** The loop over the tally *)

Lemma report_pieces_Ret found seen :
  (forall j : nat, (j < length found)%nat ->
     found !! j = Some (occurrences (Z.of_nat j) seen mod 256)) ->
  forall range warnings,
    (forall i, In i range -> 0 <= i < len found) ->
    report_pieces found range warnings
    = Ret (warnings
           ++ flat_map (fun i => piece_warning (occurrences i seen mod 256) i)
                range).
Proof.
  intros Htally. induction range as [|i range IH]; intros warnings Hrange.
  - simpl. now rewrite app_nil_r.
  - cbn [report_pieces flat_map].
    destruct (Hrange i (or_introl eq_refl)) as [H0 H1].
    assert (Hb : found !! Z.to_nat i = Some (occurrences i seen mod 256)).
    { rewrite Htally by (unfold len in H1; lia). now rewrite Z2Nat.id. }
    rewrite (index_at_in_range _ _ _ H0 Hb). simpl.
    rewrite IH by (intros; apply Hrange; now right).
    now rewrite app_assoc.
Qed.

Lemma In_seqZ i m n : In i (seqZ m n) <-> m <= i < m + n.
Proof. rewrite <- list_elem_of_In. apply elem_of_seqZ. Qed.

Lemma report_pieces_tally st seen warnings :
  tally_of seen st ->
  report_pieces (piecesFound st) (seqZ 0 (maxPieceNum st)) warnings
  = Ret (warnings ++ tally_warnings seen).
Proof.
  intros (Hlen & Hmax & Hseen & Htally). rewrite Hmax.
  apply report_pieces_Ret; [assumption|].
  intros i Hi. apply In_seqZ in Hi.
  destruct seen as [|k seen'].
  - simpl in Hi. lia.
  - assert (Hin : In (highest (k :: seen')) (k :: seen')).
    { apply highest_In; [congruence|]. intros j Hj. apply Hseen in Hj. lia. }
    apply Hseen in Hin. lia.
Qed.

(** *** The whole scan *)

(** A scan that returns a record: the file opens, has a size and
    decompresses, the archive is read to its end, and the record is the
    one of the members, with the warnings of the tally after those of the
    descriptors. *)
Lemma ScanPuzzle_record os fs r e :
  ScanPuzzle quote os fs = Ret (Some r, e) ->
  exists f size tr,
    os fs = inl f /\ file_Stat f = inl size /\ file_gzip f = inl tr /\
    tar_end tr = None /\ e = None /\
    let base := fold_left record_member (tar_members tr) (first_record fs size) in
    let l := piece_numbers (tar_members tr) in
    (forall i, In i l -> 0 <= i < maxInt) /\
    r = set_NPieceFiles (highest l + 1)
          (set_Warnings (Warnings base ++ tally_warnings l) base).
Proof.
  unfold ScanPuzzle. intros Hscan.
  destruct (os fs) as [f|err] eqn:Hopen; [|discriminate].
  destruct (Split fs) as [dir file] eqn:Hsplit.
  destruct (file_Stat f) as [size|err] eqn:Hstat; [|discriminate].
  destruct (file_gzip f) as [tr|err] eqn:Hgzip; [|discriminate].
  change (make 512) with (Ret (replicate 512 0)) in Hscan.
  cbn [mbind outcome_bind] in Hscan.
  destruct (scan_members _ _ _ _ _) as [[st|e']|] eqn:Hrun;
    cbn [mbind outcome_bind] in Hscan; try discriminate.
  destruct (scan_members_Ret _ _ _ _ _ _ (tally_of_init _) Hrun)
    as (Hend & Hinv & Hret).
  rewrite (report_pieces_tally _ _ _ Hinv) in Hscan.
  cbn [mbind outcome_bind app] in Hscan. injection Hscan as <- <-.
  exists f, size, tr.
  do 5 (split; [reflexivity || assumption|]).
  destruct Hinv as (Hlen & Hmax & Hseen & _). cbn [app] in *.
  split.
  - intros i Hi. apply Hseen in Hi. lia.
  - rewrite Hmax. rewrite wrap_int_id.
    + unfold first_record. rewrite Hsplit. cbn [fst snd].
      rewrite Hret. reflexivity.
    + pose proof (highest_ge_m1 (piece_numbers (tar_members tr))).
      destruct (piece_numbers (tar_members tr)) as [|k l'] eqn:Hl.
      * simpl. unfold minInt, maxInt. lia.
      * assert (Hin : In (highest (k :: l')) (k :: l')).
        { apply highest_In; [congruence|].
          intros j Hj. apply Hseen in Hj. lia. }
        apply Hseen in Hin. unfold minInt, maxInt in *. lia.
Qed.

Lemma ScanPuzzle_Some os fs r e :
  ScanPuzzle quote os fs = Ret (Some r, e) ->
  e = None /\
  (forall i, In i (piece_numbers (archive_members os fs)) -> 0 <= i < maxInt) /\
  r = set_NPieceFiles (highest (piece_numbers (archive_members os fs)) + 1)
        (set_Warnings
           (Warnings (members_record os fs)
            ++ tally_warnings (piece_numbers (archive_members os fs)))
           (members_record os fs)).
Proof.
  intros H. apply ScanPuzzle_record in H
    as (f & size & tr & Hopen & Hstat & Hgzip & _ & He & Hl & Hr).
  unfold members_record, archive_members, archive_size.
  rewrite Hopen, Hgzip, Hstat. auto.
Qed.

(** *** The lines of a descriptor *)

Ltac scan_line_cases :=
  unfold scan_line;
  repeat match goal with
         | |- context [match reKeyValue ?l with _ => _ end] =>
             destruct (reKeyValue l) as [[? ?]|]
         | |- context [if String.eqb ?a ?b then _ else _] =>
             destruct (String.eqb a b)
         | |- context [if ?a || ?b then _ else _] =>
             destruct (a || b)
         | |- context [match Atoi ?v with _ => _ end] =>
             destruct (Atoi v)
         end.

Lemma scan_line_ImageFileSize out line :
  ImageFileSize (scan_line quote out line) = ImageFileSize out.
Proof. scan_line_cases; reflexivity. Qed.

Lemma scan_line_warnings out line :
  Forall bad_count_warning (Warnings out) ->
  Forall bad_count_warning (Warnings (scan_line quote out line)).
Proof.
  intros H. scan_line_cases; try assumption.
  cbn. apply Forall_app. split; [assumption|].
  constructor; [|constructor]. now eexists.
Qed.

Lemma fold_scan_line_ImageFileSize lines out :
  ImageFileSize (fold_left (scan_line quote) lines out) = ImageFileSize out.
Proof.
  revert out. induction lines as [|l ls IH]; intros out; [reflexivity|].
  cbn [fold_left]. now rewrite IH, scan_line_ImageFileSize.
Qed.

Lemma fold_scan_line_warnings lines out :
  Forall bad_count_warning (Warnings out) ->
  Forall bad_count_warning (Warnings (fold_left (scan_line quote) lines out)).
Proof.
  revert out. induction lines as [|l ls IH]; intros out H; [assumption|].
  cbn [fold_left]. now apply IH, scan_line_warnings.
Qed.

Lemma scanPalaDesktopFile_fst tr out :
  fst (scanPalaDesktopFile quote tr out)
  = fold_left (scan_line quote) (fst (Scanner_run tr)) out.
Proof.
  unfold scanPalaDesktopFile. destruct (Scanner_run tr) as [lines [e|]];
    reflexivity.
Qed.

Lemma scanPalaDesktopFile_snd tr out :
  snd (scanPalaDesktopFile quote tr out)
  = match snd (Scanner_run tr) with
    | Some e =>
        Some (mkError
                ("cannot read " +:+ dquote +:+ "pala.desktop" +:+ dquote
                 +:+ " member in ")
                "?" (Some e))
    | None => None
    end.
Proof.
  unfold scanPalaDesktopFile. destruct (Scanner_run tr) as [lines [e|]];
    reflexivity.
Qed.

Lemma record_member_warnings p m :
  Forall bad_count_warning (Warnings p) ->
  Forall bad_count_warning (Warnings (record_member p m)).
Proof.
  intros H. unfold record_member.
  destruct (rePieceName _); [assumption|].
  destruct (String.eqb _ "image.jpg"); [assumption|].
  destruct (String.eqb _ "pala.desktop"); [|assumption].
  rewrite scanPalaDesktopFile_fst. now apply fold_scan_line_warnings.
Qed.

Lemma fold_record_member_warnings members p :
  Forall bad_count_warning (Warnings p) ->
  Forall bad_count_warning (Warnings (fold_left record_member members p)).
Proof.
  revert p. induction members as [|m ms IH]; intros p Hp; [assumption|].
  cbn [fold_left]. now apply IH, record_member_warnings.
Qed.

Lemma members_record_warnings os fs :
  Forall bad_count_warning (Warnings (members_record os fs)).
Proof. apply fold_record_member_warnings. constructor. Qed.

(** *** Decimal numbers start with a digit or a minus sign *)

Lemma pretty_N_go_head x c s :
  c <> "b"%char ->
  exists c' s', pretty_N_go x (String c s) = String c' s' /\ c' <> "b"%char.
Proof.
  revert c s. induction (N.lt_wf_0 x) as [x _ IH]. intros c s Hc.
  destruct (decide (x = 0)%N) as [->|Hx].
  - rewrite pretty_N_go_0. eauto.
  - rewrite pretty_N_go_step by lia. apply IH.
    + apply N.div_lt; lia.
    + unfold pretty_N_char. repeat case_match; discriminate.
Qed.

Lemma pretty_Z_head (n : Z) :
  exists c s, pretty n = String c s /\ c <> "b"%char.
Proof.
  assert (HN : forall x : N, exists c s,
               pretty x = String c s /\ c <> "b"%char).
  { intros x. unfold pretty, pretty_N. case_decide.
    - eexists _, _. split; [reflexivity|discriminate].
    - rewrite pretty_N_go_step by lia. apply pretty_N_go_head.
      unfold pretty_N_char. repeat case_match; discriminate. }
  destruct n as [|p|p]; unfold pretty, pretty_Z.
  - eexists _, _. split; [reflexivity|discriminate].
  - apply HN.
  - eexists _, _. split; [reflexivity|discriminate].
Qed.

Lemma bad_count_not_missing w i : bad_count_warning w -> w <> missing_warning i.
Proof. intros [v ->]. discriminate. Qed.

Lemma bad_count_not_members w n i :
  bad_count_warning w -> w <> members_warning n i.
Proof.
  intros [v ->]. unfold members_warning.
  destruct (pretty_Z_head n) as (c & s & -> & Hc).
  cbn. intros [= <-]. now apply Hc.
Qed.

(** *** The warnings tell the numbers in them apart *)

Lemma pretty_N_char_decimal x : decimal_char (pretty_N_char x) = true.
Proof. unfold pretty_N_char. repeat case_match; reflexivity. Qed.

Lemma pretty_N_go_decimal x s :
  string_forallb decimal_char s = true ->
  string_forallb decimal_char (pretty_N_go x s) = true.
Proof.
  revert s. induction (N.lt_wf_0 x) as [x _ IH]. intros s Hs.
  destruct (decide (x = 0)%N) as [->|Hx].
  - now rewrite pretty_N_go_0.
  - rewrite pretty_N_go_step by lia. apply IH.
    + apply N.div_lt; lia.
    + cbn [string_forallb]. now rewrite pretty_N_char_decimal, Hs.
Qed.

Lemma pretty_Z_decimal (n : Z) : string_forallb decimal_char (pretty n) = true.
Proof.
  assert (HN : forall x : N, string_forallb decimal_char (pretty x) = true).
  { intros x. unfold pretty, pretty_N. case_decide; [reflexivity|].
    now apply pretty_N_go_decimal. }
  destruct n as [|p|p]; unfold pretty, pretty_Z; [reflexivity|apply HN|].
  cbn [String.append string_forallb]. apply HN.
Qed.

(** Two texts that agree after a character which is in neither head. *)
Lemma append_cut (p : ascii -> bool) (c : ascii) s1 s2 t1 t2 :
  p c = false ->
  string_forallb p s1 = true -> string_forallb p s2 = true ->
  s1 +:+ String c t1 = s2 +:+ String c t2 -> s1 = s2 /\ t1 = t2.
Proof.
  intros Hc. revert s2. induction s1 as [|a s1 IH]; intros [|b s2] H1 H2 Heq;
    cbn in *.
  - now injection Heq.
  - injection Heq as -> _. apply andb_prop in H2 as [H2 _]. congruence.
  - injection Heq as -> _. apply andb_prop in H1 as [H1 _]. congruence.
  - injection Heq as -> Heq.
    apply andb_prop in H1 as [_ H1]. apply andb_prop in H2 as [_ H2].
    destruct (IH _ H1 H2 Heq) as [-> ->]. auto.
Qed.

Lemma pretty_png_inj (i j : Z) t :
  pretty i +:+ String "."%char t = pretty j +:+ String "."%char t -> i = j.
Proof.
  intros H.
  apply (append_cut decimal_char) in H as [H _];
    auto using pretty_Z_decimal.
  now apply (inj pretty) in H.
Qed.

Lemma missing_warning_inj i j : missing_warning i = missing_warning j -> i = j.
Proof.
  unfold missing_warning. cbn. intros [= H]. now apply pretty_png_inj in H.
Qed.

Lemma members_warning_inj n i m j :
  members_warning n i = members_warning m j -> n = m /\ i = j.
Proof.
  unfold members_warning. cbn. intros H.
  apply (append_cut decimal_char) in H as [Hn H];
    auto using pretty_Z_decimal.
  apply (inj pretty) in Hn. injection H as H.
  apply pretty_png_inj in H. auto.
Qed.

Lemma missing_not_members i n j : missing_warning i <> members_warning n j.
Proof.
  unfold missing_warning, members_warning. cbn.
  pose proof (pretty_Z_decimal n) as Hn.
  destruct (pretty n) as [|c s]; cbn; [discriminate|].
  intros [= <- _]. discriminate.
Qed.

(** *** Which warnings the tally gives *)

Lemma In_piece_warning w n i :
  In w (piece_warning n i) <->
  (n = 0 /\ w = missing_warning i) \/ (1 < n /\ w = members_warning n i).
Proof.
  unfold piece_warning.
  destruct (n =? 0) eqn:H0; [apply Z.eqb_eq in H0|apply Z.eqb_neq in H0].
  - cbn. split; [intros [<-|[]]; auto|]. intros [[_ ->]|[? _]]; [auto|lia].
  - destruct (n >? 1) eqn:H1; rewrite Z.gtb_ltb in H1;
      [apply Z.ltb_lt in H1|apply Z.ltb_ge in H1]; cbn.
    + split; [intros [<-|[]]; auto|]. intros [[? _]|[_ ->]]; [lia|auto].
    + split; [intros []|]. intros [[? _]|[? _]]; lia.
Qed.

Lemma In_tally_warnings w l :
  In w (tally_warnings l) <->
  exists i, 0 <= i < highest l /\
            In w (piece_warning (occurrences i l mod 256) i).
Proof.
  unfold tally_warnings. rewrite in_flat_map.
  split; intros (i & Hi & Hw); exists i; (split; [|assumption]).
  - apply In_seqZ in Hi. lia.
  - apply In_seqZ. lia.
Qed.

Lemma In_tally_missing i l :
  In (missing_warning i) (tally_warnings l) <->
  0 <= i < highest l /\ occurrences i l mod 256 = 0.
Proof.
  rewrite In_tally_warnings. split.
  - intros (j & Hj & Hw). apply In_piece_warning in Hw as [[H0 Hw]|[_ Hw]].
    + apply missing_warning_inj in Hw as ->. auto.
    + now apply missing_not_members in Hw.
  - intros [Hi H0]. exists i. split; [assumption|].
    apply In_piece_warning. auto.
Qed.

Lemma In_tally_members n i l :
  In (members_warning n i) (tally_warnings l) <->
  0 <= i < highest l /\ n = occurrences i l mod 256 /\ 1 < n.
Proof.
  rewrite In_tally_warnings. split.
  - intros (j & Hj & Hw). apply In_piece_warning in Hw as [[_ Hw]|[H1 Hw]].
    + symmetry in Hw. now apply missing_not_members in Hw.
    + apply members_warning_inj in Hw as [-> ->]. auto.
  - intros (Hi & -> & H1). exists i. split; [assumption|].
    apply In_piece_warning. auto.
Qed.

(** The warnings of a returned record that are about pieces. *)
Lemma In_Warnings_missing os fs r e i :
  ScanPuzzle quote os fs = Ret (Some r, e) ->
  In (missing_warning i) (Warnings r) <->
  0 <= i < highest (piece_numbers (archive_members os fs)) /\
  occurrences i (piece_numbers (archive_members os fs)) mod 256 = 0.
Proof.
  intros H. apply ScanPuzzle_Some in H as (_ & _ & ->).
  cbn [Warnings set_NPieceFiles set_Warnings].
  rewrite in_app_iff, In_tally_missing. split; [|auto].
  intros [Hbad|H]; [|assumption].
  pose proof (members_record_warnings os fs) as Hall.
  rewrite List.Forall_forall in Hall. apply Hall in Hbad.
  destruct (bad_count_not_missing _ i Hbad eq_refl).
Qed.

Lemma In_Warnings_members os fs r e n i :
  ScanPuzzle quote os fs = Ret (Some r, e) ->
  In (members_warning n i) (Warnings r) <->
  0 <= i < highest (piece_numbers (archive_members os fs)) /\
  n = occurrences i (piece_numbers (archive_members os fs)) mod 256 /\ 1 < n.
Proof.
  intros H. apply ScanPuzzle_Some in H as (_ & _ & ->).
  cbn [Warnings set_NPieceFiles set_Warnings].
  rewrite in_app_iff, In_tally_members. split; [|auto].
  intros [Hbad|H]; [|assumption].
  pose proof (members_record_warnings os fs) as Hall.
  rewrite List.Forall_forall in Hall. apply Hall in Hbad.
  destruct (bad_count_not_members _ n i Hbad eq_refl).
Qed.

(** *** Every matching name of a finished loop is a piece number *)

Lemma scan_members_parse fs members final :
  forall st st',
    scan_members quote fs members final st = Ret (inl st') ->
    forall m d, In m members -> rePieceName (Name (fst m)) = Some d ->
                exists i, Atoi d = inl i.
Proof.
  induction members as [|[header body] rest IH]; intros st st' Hrun m d Hm Hd.
  - destruct Hm.
  - simpl in Hrun.
    destruct (scan_member quote fs st header body) as [[st1|e]|] eqn:Hstep;
      simpl in Hrun; try discriminate.
    destruct Hm as [<-|Hm]; [|eapply IH; eassumption].
    cbn [fst] in Hd. unfold scan_member in Hstep. rewrite Hd in Hstep.
    destruct (Atoi d) as [i|err]; [eauto|discriminate].
Qed.

Lemma In_piece_numbers members m d i :
  In m members -> rePieceName (Name (fst m)) = Some d -> Atoi d = inl i ->
  In i (piece_numbers members).
Proof.
  intros Hm Hd Hi. unfold piece_numbers.
  apply list_elem_of_In, list_elem_of_omap. exists m.
  split; [now apply list_elem_of_In|].
  unfold piece_number. now rewrite Hd, Hi.
Qed.

Lemma piece_numbers_none members :
  (forall m, In m members -> rePieceName (Name (fst m)) = None) ->
  piece_numbers members = [].
Proof.
  induction members as [|[header body] rest IH]; intros H; [reflexivity|].
  rewrite piece_numbers_cons_other by (apply (H (header, body)); now left).
  apply IH. intros m Hm. apply H. now right.
Qed.

Lemma piece_numbers_Permutation members members' :
  Permutation members members' ->
  Permutation (piece_numbers members) (piece_numbers members').
Proof.
  unfold piece_numbers. induction 1; cbn [omap list_omap].
  - constructor.
  - destruct (piece_number (fst x)); [now constructor|assumption].
  - destruct (piece_number (fst x)), (piece_number (fst y));
      try reflexivity. apply perm_swap.
  - etransitivity; eassumption.
Qed.

Lemma tally_warnings_Permutation l l' :
  Permutation l l' -> tally_warnings l = tally_warnings l'.
Proof.
  intros H. unfold tally_warnings. rewrite (highest_Permutation _ _ H).
  apply flat_map_ext. intros i. now rewrite (occurrences_Permutation _ _ _ H).
Qed.

(** A scan that returns a record has run its first loop to the end. *)
Lemma ScanPuzzle_loop os fs r e :
  ScanPuzzle quote os fs = Ret (Some r, e) ->
  exists st,
    scan_members quote fs (archive_members os fs) None
      (mkState (first_record fs (archive_size os fs)) (-1) (replicate 512 0))
    = Ret (inl st).
Proof.
  unfold ScanPuzzle, archive_members, archive_size, first_record.
  intros Hscan.
  destruct (os fs) as [f|err]; [|discriminate].
  destruct (Split fs) as [dir file].
  destruct (file_Stat f) as [size|err]; [|discriminate].
  destruct (file_gzip f) as [tr|err]; [|discriminate].
  change (make 512) with (Ret (replicate 512 0)) in Hscan.
  cbn [mbind outcome_bind] in Hscan.
  destruct (scan_members _ _ _ _ _) as [[st|e']|] eqn:Hrun;
    cbn [mbind outcome_bind] in Hscan; try discriminate.
  destruct (scan_members_Ret _ _ _ _ _ _ (tally_of_init _) Hrun)
    as (Hend & _). rewrite Hend in Hrun. eauto.
Qed.

(** ** The claims *)

(** C1 (the code departs from it). The claim: an archive with exactly two
    members named 3.png and no piece with a higher number gets one warning
    about 2 members named 3.png, every number in the range up to the
    highest one that occurs more than once being reported. The second loop
    of [ScanPuzzle] stops before the highest piece number: a returned
    record holds no warning about the members with the highest number,
    whatever their count, and none about a missing piece there. *)
Theorem C1_highest_number_gets_no_warning os fs r e :
  ScanPuzzle quote os fs = Ret (Some r, e) ->
  let top := highest (piece_numbers (archive_members os fs)) in
  (forall n, ~ In (members_warning n top) (Warnings r)) /\
  ~ In (missing_warning top) (Warnings r).
Proof.
  intros H. cbv zeta. split.
  - intros n Hin. apply (In_Warnings_members _ _ _ _ _ _ H) in Hin. lia.
  - intros Hin. apply (In_Warnings_missing _ _ _ _ _ H) in Hin. lia.
Qed.

(** C2. After the loop over an archive with a piece in it, [ScanPuzzle]
    appends to the warnings of the descriptors, for the positions 0 to
    the highest piece number less one in ascending order, what
    [piece_warning] gives for the count of the position: a position
    without a hit gets its warning of a missing piece, and the position of
    the highest number gets none. The warnings about the pieces are the
    same for every order of the members. *)
Theorem C2_missing_pieces_in_ascending_order os fs r e :
  ScanPuzzle quote os fs = Ret (Some r, e) ->
  piece_numbers (archive_members os fs) <> [] ->
  let l := piece_numbers (archive_members os fs) in
  Warnings r
  = Warnings (members_record os fs)
    ++ flat_map (fun i => piece_warning (occurrences i l mod 256) i)
         (seqZ 0 (highest l)) /\
  (forall i, 0 <= i < highest l -> ~ In i l ->
             In (missing_warning i) (Warnings r)) /\
  ~ In (missing_warning (highest l)) (Warnings r) /\
  (forall os' fs' r' e',
     ScanPuzzle quote os' fs' = Ret (Some r', e') ->
     Permutation (archive_members os fs) (archive_members os' fs') ->
     exists pieces,
       Warnings r = Warnings (members_record os fs) ++ pieces /\
       Warnings r' = Warnings (members_record os' fs') ++ pieces).
Proof.
  intros H Hne. cbv zeta.
  pose proof (ScanPuzzle_Some _ _ _ _ H) as (_ & _ & Hr).
  split; [|split; [|split]].
  - rewrite Hr. reflexivity.
  - intros i Hi Hnot. apply (In_Warnings_missing _ _ _ _ _ H).
    split; [assumption|]. now rewrite occurrences_zero.
  - intros Hin. apply (In_Warnings_missing _ _ _ _ _ H) in Hin. lia.
  - intros os' fs' r' e' H' Hperm.
    pose proof (ScanPuzzle_Some _ _ _ _ H') as (_ & _ & Hr').
    exists (tally_warnings (piece_numbers (archive_members os fs))).
    split; [now rewrite Hr|].
    rewrite Hr'. cbn [Warnings set_NPieceFiles set_Warnings].
    f_equal. symmetry. apply tally_warnings_Permutation.
    now apply piece_numbers_Permutation.
Qed.

(** C3. In the record of a scan, [NPieceFiles] is one more than the
    highest number among the members whose names match the pattern of the
    pieces, every one of which has a number; without such a member it is
    0, and the warnings are those of the descriptors: none is about a
    missing piece or about the members of a piece. *)
Theorem C3_piece_file_count os fs r e :
  ScanPuzzle quote os fs = Ret (Some r, e) ->
  let members := archive_members os fs in
  let l := piece_numbers members in
  (forall m d, In m members -> rePieceName (Name (fst m)) = Some d ->
               exists i, Atoi d = inl i /\ In i l) /\
  (l <> [] ->
   NPieceFiles r = 1 + highest l /\ In (highest l) l /\
   forall i, In i l -> i <= highest l) /\
  ((forall m, In m members -> rePieceName (Name (fst m)) = None) ->
   NPieceFiles r = 0 /\ Warnings r = Warnings (members_record os fs) /\
   forall i n, ~ In (missing_warning i) (Warnings r) /\
               ~ In (members_warning n i) (Warnings r)).
Proof.
  intros H. cbv zeta.
  pose proof (ScanPuzzle_Some _ _ _ _ H) as (_ & Hl & Hr).
  split; [|split].
  - intros m d Hm Hd.
    destruct (ScanPuzzle_loop _ _ _ _ H) as (st & Hrun).
    destruct (scan_members_parse _ _ _ _ _ Hrun m d Hm Hd) as [i Hi].
    exists i. split; [assumption|]. eapply In_piece_numbers; eassumption.
  - intros Hne. split; [|split].
    + rewrite Hr. cbn. lia.
    + apply highest_In; [assumption|]. intros i Hi. apply Hl in Hi. lia.
    + intros i. apply highest_In_le.
  - intros Hnone. pose proof (piece_numbers_none _ Hnone) as Hnil.
    split; [|split].
    + rewrite Hr, Hnil. reflexivity.
    + rewrite Hr, Hnil. cbn. now rewrite app_nil_r.
    + intros i n. split; intros Hin.
      * apply (In_Warnings_missing _ _ _ _ _ H) in Hin.
        rewrite Hnil in Hin. simpl in Hin. lia.
      * apply (In_Warnings_members _ _ _ _ _ _ H) in Hin.
        rewrite Hnil in Hin. simpl in Hin. lia.
Qed.

(** *** The declared count *)

Lemma scan_line_NPiecesDecl out line :
  declares_count line = false ->
  NPiecesDecl (scan_line quote out line) = NPiecesDecl out.
Proof.
  unfold declares_count, count_key, scan_line.
  destruct (reKeyValue line) as [[key m2]|]; [|reflexivity].
  intros ->.
  destruct (String.eqb key "Name"); [reflexivity|].
  destruct (String.eqb key "X-KDE-PluginInfo-Author"); [reflexivity|].
  destruct (String.eqb key "Comment"); reflexivity.
Qed.

Lemma fold_scan_line_NPiecesDecl lines out :
  (forall l, In l lines -> declares_count l = false) ->
  NPiecesDecl (fold_left (scan_line quote) lines out) = NPiecesDecl out.
Proof.
  revert out. induction lines as [|l ls IH]; intros out H; [reflexivity|].
  cbn [fold_left]. rewrite IH by (intros; apply H; now right).
  apply scan_line_NPiecesDecl, H. now left.
Qed.

Lemma fold_record_member_NPiecesDecl members p :
  (forall l, In l (descriptor_lines members) -> declares_count l = false) ->
  NPiecesDecl (fold_left record_member members p) = NPiecesDecl p.
Proof.
  revert p. induction members as [|m ms IH]; intros p H; [reflexivity|].
  cbn [fold_left]. cbn [descriptor_lines flat_map] in H.
  rewrite IH by (intros; apply H, in_or_app; now right).
  unfold record_member.
  destruct (rePieceName _); [reflexivity|].
  destruct (String.eqb _ "image.jpg"); [reflexivity|].
  destruct (String.eqb _ "pala.desktop"); [|reflexivity].
  rewrite scanPalaDesktopFile_fst. apply fold_scan_line_NPiecesDecl.
  intros l Hl. apply H, in_or_app. now left.
Qed.

(** C4. A line of the descriptor with the key PieceCount or
    020_PieceCount, whose value is the text after the equals sign without
    the white space around it: when the value parses, the number is the
    declared count; when it does not, the declared count is -1 and the
    warning of a bad PieceCount with the quoted value is appended. No line
    makes the parser fail: it reports what the scanner of the lines
    reports. In the record of an archive none of whose descriptor lines
    sets the count, the declared count is 0. *)
Theorem C4_declared_piece_count out line key m2 :
  reKeyValue line = Some (key, m2) ->
  key = "PieceCount" \/ key = "020_PieceCount" ->
  let value := TrimSpace m2 in
  (forall n, Atoi value = inl n ->
             scan_line quote out line = set_NPiecesDecl n out) /\
  (forall err, Atoi value = inr err ->
     scan_line quote out line
     = set_NPiecesDecl (-1)
         (set_Warnings (Warnings out ++ ["bad PieceCount " +:+ quote value])
            out)) /\
  (forall tr, snd (Scanner_run tr) = None ->
              snd (scanPalaDesktopFile quote tr out) = None) /\
  (forall os fs r e,
     ScanPuzzle quote os fs = Ret (Some r, e) ->
     (forall l, In l (descriptor_lines (archive_members os fs)) ->
                declares_count l = false) ->
     NPiecesDecl r = 0).
Proof.
  intros Hm Hkey. cbv zeta.
  assert (Hline : scan_line quote out line
                  = match Atoi (TrimSpace m2) with
                    | inl n => set_NPiecesDecl n out
                    | inr _ =>
                        set_NPiecesDecl (-1)
                          (set_Warnings
                             (Warnings out
                              ++ ["bad PieceCount " +:+ quote (TrimSpace m2)])
                             out)
                    end).
  { unfold scan_line. rewrite Hm. destruct Hkey as [-> | ->]; reflexivity. }
  split; [|split; [|split]].
  - intros n Hn. now rewrite Hline, Hn.
  - intros err Herr. now rewrite Hline, Herr.
  - intros tr Htr. rewrite scanPalaDesktopFile_snd. now rewrite Htr.
  - intros os fs r e H Habsent.
    pose proof (ScanPuzzle_Some _ _ _ _ H) as (_ & _ & ->).
    cbn [NPiecesDecl set_NPieceFiles set_Warnings].
    unfold members_record. now rewrite fold_record_member_NPiecesDecl.
Qed.

(** *** Lines the scanner cannot hold *)

Lemma scan_segments_err s ss err :
  snd (scan_segments s ss err) = Some ErrTooLong /\
  (Exists (fun seg => MaxScanTokenSize <= Z.of_nat (String.length seg))
     (removelast (s :: ss))
   \/ MaxScanTokenSize < Z.of_nat (String.length (List.last (s :: ss) EmptyString)))
  \/
  snd (scan_segments s ss err) = err /\
  ~ (Exists (fun seg => MaxScanTokenSize <= Z.of_nat (String.length seg))
       (removelast (s :: ss))
     \/ MaxScanTokenSize
        < Z.of_nat (String.length (List.last (s :: ss) EmptyString))).
Proof.
  revert s. induction ss as [|s' ss IH]; intros s.
  - cbn [scan_segments removelast List.last].
    destruct (Z.of_nat (String.length s) =? 0) eqn:H0.
    + apply Z.eqb_eq in H0. right. split; [reflexivity|].
      intros [H|H]; [inversion H|]. unfold MaxScanTokenSize in H. lia.
    + destruct (Z.of_nat (String.length s) <=? MaxScanTokenSize) eqn:H1.
      * apply Z.leb_le in H1. right. split; [reflexivity|].
        intros [H|H]; [inversion H|lia].
      * apply Z.leb_gt in H1. left. split; [reflexivity|]. now right.
  - cbn [scan_segments].
    change (removelast (s :: s' :: ss)) with (s :: removelast (s' :: ss)).
    change (List.last (s :: s' :: ss) EmptyString)
      with (List.last (s' :: ss) EmptyString).
    destruct (Z.of_nat (String.length s) <? MaxScanTokenSize) eqn:H1.
    + apply Z.ltb_lt in H1.
      destruct (scan_segments s' ss err) as [ts e] eqn:Hrest.
      specialize (IH s'). rewrite Hrest in IH. cbn [snd] in *.
      destruct IH as [[He [H|H]]|[He Hnot]].
      * left. split; [assumption|]. left. now constructor 2.
      * left. split; [assumption|]. now right.
      * right. split; [assumption|]. intros [H|H].
        -- inversion H; subst; [lia|]. apply Hnot. now left.
        -- apply Hnot. now right.
    + apply Z.ltb_ge in H1. left. split; [reflexivity|].
      left. now constructor 1.
Qed.

Lemma Scanner_run_err tr :
  snd (Scanner_run tr) <> None <->
  r_err tr <> None \/ too_long_line (r_data tr).
Proof.
  unfold Scanner_run, too_long_line.
  destruct (segments (r_data tr)) as [s ss]. cbn [fst snd].
  destruct (scan_segments_err s ss (r_err tr)) as [[He Hlong]|[He Hnot]];
    rewrite He.
  - split; [auto|discriminate].
  - tauto.
Qed.

Lemma reKeyValue_bracket rest : reKeyValue (String "["%char rest) = None.
Proof. reflexivity. Qed.

(** C5 (amended). A line of the descriptor that does not match the
    pattern, as a line that starts with an opening square bracket, or
    whose key is not one of the five keys, changes nothing in the record:
    no field and no warning. The parser returns an error exactly when the
    scanner of the lines reports one: the reader of the member fails, or
    a line does not fit the buffer of the scanner. *)
Theorem C5_lenient_descriptor_parser :
  (forall out line,
     reKeyValue line = None \/
     (exists key m2, reKeyValue line = Some (key, m2) /\
                     recognized_key key = false) ->
     scan_line quote out line = out) /\
  (forall rest, reKeyValue (String "["%char rest) = None) /\
  (forall tr out,
     snd (scanPalaDesktopFile quote tr out) <> None <->
     r_err tr <> None \/ too_long_line (r_data tr)).
Proof.
  split; [|split].
  - intros out line [H|(key & m2 & H & Hkey)]; unfold scan_line; rewrite H;
      [reflexivity|].
    unfold recognized_key in Hkey.
    repeat (apply orb_false_elim in Hkey as [Hkey ?]).
    repeat match goal with H : String.eqb _ _ = false |- _ =>
             rewrite H; clear H end.
    reflexivity.
  - exact reKeyValue_bracket.
  - intros tr out. rewrite scanPalaDesktopFile_snd, <- Scanner_run_err.
    destruct (snd (Scanner_run tr)); split; congruence.
Qed.

(** *** Errors of a scan *)

Lemma scan_member_inr fs st header body e :
  scan_member quote fs st header body = Ret (inr e) ->
  FilePath e = fs /\ exists be, BaseError e = Some be.
Proof.
  unfold scan_member.
  destruct (rePieceName (Name header)) as [m1|].
  - destruct (Atoi m1) as [i|err].
    + destruct (if i >=? _ then _ else _) as [found|]; [|discriminate].
      cbn [mbind outcome_bind].
      destruct (incr_at found i); discriminate.
    + intros [= <-]. cbn. eauto.
  - destruct (String.eqb (Name header) "image.jpg"); [discriminate|].
    destruct (String.eqb (Name header) "pala.desktop"); [|discriminate].
    pose proof (scanPalaDesktopFile_snd body (ret st)) as Hsnd.
    destruct (scanPalaDesktopFile quote body (ret st)) as [out [e'|]];
      [|discriminate].
    cbn [snd] in Hsnd. intros [= <-]. cbn [FilePath BaseError].
    split; [reflexivity|].
    destruct (snd (Scanner_run body)); [|discriminate].
    injection Hsnd as ->. cbn. eauto.
Qed.

Lemma scan_members_inr fs members final :
  forall st e,
    scan_members quote fs members final st = Ret (inr e) ->
    FilePath e = fs /\ exists be, BaseError e = Some be.
Proof.
  induction members as [|[header body] rest IH]; intros st e Hrun.
  - simpl in Hrun. destruct final; [|discriminate].
    injection Hrun as <-. cbn. eauto.
  - simpl in Hrun.
    destruct (scan_member quote fs st header body) as [[st1|e1]|] eqn:Hstep;
      simpl in Hrun; try discriminate.
    + eapply IH; eassumption.
    + injection Hrun as <-. eapply scan_member_inr; eassumption.
Qed.

(** A scan that returns gives a record and no error, or no record and an
    error about the path [fs] with a base error. *)
Lemma ScanPuzzle_Ret os fs o e :
  ScanPuzzle quote os fs = Ret (o, e) ->
  (exists r, o = Some r /\ e = None) \/
  (o = None /\ exists err be,
      e = Some err /\ FilePath err = fs /\ BaseError err = Some be).
Proof.
  destruct o as [r|]; intros H.
  - left. exists r. split; [reflexivity|].
    now apply ScanPuzzle_Some in H as (-> & _).
  - right. split; [reflexivity|]. unfold ScanPuzzle in H.
    destruct (os fs) as [f|err];
      [|injection H as <-; cbn; eauto].
    destruct (Split fs) as [dir file].
    destruct (file_Stat f) as [size|err];
      [|injection H as <-; cbn; eauto].
    destruct (file_gzip f) as [tr|err];
      [|injection H as <-; cbn; eauto].
    change (make 512) with (Ret (replicate 512 0)) in H.
    cbn [mbind outcome_bind] in H.
    destruct (scan_members _ _ _ _ _) as [[st|e']|] eqn:Hrun;
      cbn [mbind outcome_bind] in H; try discriminate.
    + destruct (report_pieces _ _ _); discriminate.
    + injection H as <-.
      destruct (scan_members_inr _ _ _ _ _ Hrun) as (Hp & be & Hbe). eauto.
Qed.

Lemma Part000_ScanPuzzle os fs :
  Part000.ScanPuzzle quote os fs = ScanPuzzle quote (without_Stat os) fs.
Proof.
  unfold Part000.ScanPuzzle, ScanPuzzle, without_Stat.
  destruct (os fs) as [f|err]; [|reflexivity].
  destruct (Split fs) as [dir file]. cbn [file_Stat file_gzip].
  destruct (file_gzip f) as [tr|err]; reflexivity.
Qed.

(** *** The size of the image *)

Lemma last_cons_default {A} (a : A) l d : List.last (a :: l) d = List.last l a.
Proof.
  revert a d. induction l as [|b l IH]; intros a d; [reflexivity|].
  change (List.last (a :: b :: l) d) with (List.last (b :: l) d).
  rewrite IH. symmetry. apply IH.
Qed.

Lemma record_member_ImageFileSize p m :
  ImageFileSize (record_member p m)
  = if String.eqb (Name (fst m)) "image.jpg" then Size (fst m)
    else ImageFileSize p.
Proof.
  unfold record_member.
  destruct (String.eqb (Name (fst m)) "image.jpg") eqn:Himg.
  - apply String.eqb_eq in Himg. rewrite Himg. reflexivity.
  - destruct (rePieceName _); [reflexivity|].
    destruct (String.eqb _ "pala.desktop"); [|reflexivity].
    rewrite scanPalaDesktopFile_fst. apply fold_scan_line_ImageFileSize.
Qed.

Lemma fold_record_member_ImageFileSize members p :
  ImageFileSize (fold_left record_member members p)
  = List.last (image_sizes members) (ImageFileSize p).
Proof.
  revert p. induction members as [|m ms IH]; intros p; [reflexivity|].
  cbn [fold_left]. rewrite IH, record_member_ImageFileSize.
  unfold image_sizes. cbn [List.filter].
  destruct (String.eqb (Name (fst m)) "image.jpg"); [|reflexivity].
  cbn [map]. now rewrite last_cons_default.
Qed.

(** *** Piece numbers are not negative *)

Lemma span_digit_head name c a rest :
  span is_digit name = (String c a, rest) -> is_digit c = true.
Proof.
  destruct name as [|c' r]; [discriminate|]. cbn [span].
  destruct (is_digit c') eqn:Hc; [|discriminate].
  destruct (span is_digit r). now intros [= <- _ _].
Qed.

Lemma Atoi_digit_head c a i :
  is_digit c = true -> Atoi (String c a) = inl i -> 0 <= i.
Proof.
  intros Hc. unfold Atoi.
  assert (Hbody : (match String c a with
                   | String "-"%char r => (true, r)
                   | String "+"%char r => (false, r)
                   | _ => (false, String c a)
                   end) = (false, String c a)).
  { destruct c as [[] [] [] [] [] [] [] []]; try reflexivity;
      discriminate. }
  rewrite Hbody.
  destruct (digits_value 0 (String c a)) as [v|] eqn:Hv; [|discriminate].
  destruct (_ && _); [|discriminate]. intros [= <-].
  eapply digits_value_range; [|exact Hv]. lia.
Qed.

Lemma piece_number_nonneg name m1 i :
  rePieceName name = Some m1 -> Atoi m1 = inl i -> 0 <= i.
Proof.
  unfold rePieceName. destruct (span is_digit name) as [digits rest] eqn:Hs.
  destruct digits as [|c a]; [discriminate|].
  destruct (String.eqb rest ".png"); [|discriminate].
  intros [= <-]. apply Atoi_digit_head. eapply span_digit_head; eassumption.
Qed.

(** C6 (the code departs from it). The claim: every scan gives a record
    or an error, and never both. A scan that returns does so, by
    [ScanPuzzle_Ret]; but a scan whose archive starts with a piece of a
    number from 2^62 on does not return: the length 2 * i of the new
    tally wraps around to a negative number, and [make] panics. *)
Theorem C6_scan_panics_on_large_piece_number
    os fs f size tr header body rest m1 i :
  os fs = inl f -> file_Stat f = inl size -> file_gzip f = inl tr ->
  tar_members tr = (header, body) :: rest ->
  rePieceName (Name header) = Some m1 -> Atoi m1 = inl i ->
  2 ^ 62 <= i ->
  ScanPuzzle quote os fs = Panic MakesliceLenOutOfRange.
Proof.
  intros Hopen Hstat Hgzip Hmembers Hname Hi Hbig.
  unfold ScanPuzzle. rewrite Hopen. destruct (Split fs) as [dir file].
  rewrite Hstat, Hgzip, Hmembers.
  change (make 512) with (Ret (replicate 512 0)).
  cbn [mbind outcome_bind scan_members].
  rewrite (scan_member_piece _ _ _ _ _ _ Hname Hi).
  cbn [piecesFound].
  rewrite grow_Panic; [reflexivity| |].
  - pose proof (Atoi_range _ _ Hi). lia.
  - unfold len. rewrite length_replicate. lia.
Qed.

(** C7. The record of a scan holds the size of the last member named
    image.jpg, and 0 without one. The loop that gave the record has
    counted every occurrence of every piece number: the tally holds, at
    the position of a number, the count of its occurrences in a byte,
    and a number below the highest one is reported with that count when
    it is above 1. *)
Theorem C7_last_image_wins_pieces_all_counted os fs r e :
  ScanPuzzle quote os fs = Ret (Some r, e) ->
  let members := archive_members os fs in
  ImageFileSize r = List.last (image_sizes members) 0 /\
  (exists st,
     scan_members quote fs members None
       (mkState (first_record fs (archive_size os fs)) (-1) (replicate 512 0))
     = Ret (inl st) /\
     forall i, In i (piece_numbers members) ->
       piecesFound st !! Z.to_nat i
       = Some (occurrences i (piece_numbers members) mod 256)) /\
  (forall n i,
     In (members_warning n i) (Warnings r) <->
     0 <= i < highest (piece_numbers members) /\
     n = occurrences i (piece_numbers members) mod 256 /\ 1 < n).
Proof.
  intros H. cbv zeta. split; [|split].
  - pose proof (ScanPuzzle_Some _ _ _ _ H) as (_ & _ & ->).
    cbn [ImageFileSize set_NPieceFiles set_Warnings].
    unfold members_record. now rewrite fold_record_member_ImageFileSize.
  - destruct (ScanPuzzle_loop _ _ _ _ H) as (st & Hrun).
    exists st. split; [assumption|].
    destruct (scan_members_Ret _ _ _ _ _ _ (tally_of_init _) Hrun)
      as (_ & (_ & _ & Hseen & Htally) & _).
    cbn [app] in *. intros i Hi. apply Hseen in Hi.
    rewrite Htally by (unfold len in Hi; lia). now rewrite Z2Nat.id by lia.
  - intros n i. exact (In_Warnings_members _ _ _ _ n i H).
Qed.

(** C8. The error of a scan, in the later and in the earlier revision,
    has a base error, and its text is the word cannot, the action, the
    quoted path of the scan and, after a colon, the text of the cause.
    The cause of a path error of the operating system is the error inside
    it, whatever that is: one level is unwrapped. Of any other base error
    the cause is the error itself. Without a base error the later
    revision prints no cause. *)
Theorem C8_error_rendering :
  (forall os fs o e,
     ScanPuzzle quote os fs = Ret (o, Some e) \/
     Part000.ScanPuzzle quote os fs = Ret (o, Some e) ->
     exists be,
       BaseError e = Some be /\ FilePath e = fs /\
       let cause := match be with PathError _ _ inner => inner | _ => be end in
       Error_Error quote e
       = rendering (Action e) fs (Some (error_Error quote cause)) /\
       Part000.Error_Error quote e = Ret (Error_Error quote e)) /\
  (forall action path op p inner,
     Error_Error quote (mkError action path (Some (PathError op p inner)))
     = rendering action path (Some (error_Error quote inner))) /\
  (forall action path fn num err,
     Error_Error quote (mkError action path (Some (NumError fn num err)))
     = rendering action path
         (Some (error_Error quote (NumError fn num err)))) /\
  (forall action path msg,
     Error_Error quote (mkError action path (Some (ErrorString msg)))
     = rendering action path (Some msg)) /\
  (forall action path,
     Error_Error quote (mkError action path None)
     = rendering action path None).
Proof.
  split; [|repeat split].
  intros os fs o e H.
  assert (Hret : ScanPuzzle quote os fs = Ret (o, Some e) \/
                 ScanPuzzle quote (without_Stat os) fs = Ret (o, Some e)).
  { destruct H as [H|H]; [now left|right]. now rewrite <- Part000_ScanPuzzle. }
  assert (Herr : FilePath e = fs /\ exists be, BaseError e = Some be).
  { destruct Hret as [H'|H']; apply ScanPuzzle_Ret in H'
      as [(r & _ & He)|(_ & err & be & He & Hp & Hbe)];
      try discriminate; injection He as <-; eauto. }
  destruct Herr as (Hp & be & Hbe). exists be.
  split; [assumption|]. split; [assumption|]. cbv zeta.
  unfold Error_Error, Part000.Error_Error, rendering.
  rewrite Hbe, Hp. split; reflexivity.
Qed.

(** C9 (amended). The tally counts in a byte. Below the highest piece
    number, a number is reported as missing exactly when the count of its
    occurrences is a multiple of 256, and with the warning about n
    members exactly when n is the count modulo 256 and above 1: a number
    that occurs 256 times is reported as missing and not as a duplicate,
    and a number that occurs 257 times gets no warning at all. *)
Theorem C9_counts_modulo_256 os fs r e i :
  ScanPuzzle quote os fs = Ret (Some r, e) ->
  let l := piece_numbers (archive_members os fs) in
  0 <= i < highest l ->
  (In (missing_warning i) (Warnings r) <-> occurrences i l mod 256 = 0) /\
  (forall n, In (members_warning n i) (Warnings r) <->
             n = occurrences i l mod 256 /\ 1 < n) /\
  (occurrences i l = 256 ->
   In (missing_warning i) (Warnings r) /\
   forall n, ~ In (members_warning n i) (Warnings r)) /\
  (occurrences i l = 257 ->
   ~ In (missing_warning i) (Warnings r) /\
   forall n, ~ In (members_warning n i) (Warnings r)).
Proof.
  intros H. cbv zeta. intros Hi.
  pose proof (In_Warnings_missing _ _ _ _ i H) as Hmiss.
  pose proof (fun n => In_Warnings_members _ _ _ _ n i H) as Hmem.
  split; [|split; [|split]].
  - rewrite Hmiss. tauto.
  - intros n. rewrite Hmem. tauto.
  - intros H256. rewrite H256 in *. split.
    + apply Hmiss. split; [assumption|reflexivity].
    + intros n Hn. apply Hmem in Hn as (_ & -> & Hn).
      change (256 mod 256) with 0 in Hn. lia.
  - intros H257. rewrite H257 in *. split.
    + intros Hin. apply Hmiss in Hin as [_ Hin]. discriminate.
    + intros n Hn. apply Hmem in Hn as (_ & -> & Hn).
      change (257 mod 256) with 1 in Hn. lia.
Qed.

(** *** The write to the tally *)

(** With a tally of 512 positions or more, a piece whose number is a
    position of the tally or is at most 2^47 is counted: the tally keeps
    its length or has the length 2 * i, with the counts it had and zeros
    after them, and the count at [i] is one more. *)
Lemma scan_member_piece_Ret fs st header body m1 i :
  rePieceName (Name header) = Some m1 -> Atoi m1 = inl i ->
  512 <= len (piecesFound st) <= maxInt ->
  i < len (piecesFound st) \/ i <= 2 ^ 47 ->
  exists st',
    scan_member quote fs st header body = Ret (inl st') /\
    0 <= i < len (piecesFound st') /\
    len (piecesFound st')
    = (if i >=? len (piecesFound st) then 2 * i else len (piecesFound st)) /\
    piecesFound st'
    = <[Z.to_nat i :=
          wrap_byte (default 0 (piecesFound st !! Z.to_nat i) + 1)]>
        (piecesFound st
         ++ replicate
              (Z.to_nat (len (piecesFound st') - len (piecesFound st))) 0).
Proof.
  intros Hname Hi Hlen Hok.
  pose proof (piece_number_nonneg _ _ _ Hname Hi) as H0.
  pose proof (Atoi_range _ _ Hi) as Hrange.
  rewrite (scan_member_piece _ _ _ _ _ _ Hname Hi).
  destruct (i >=? len (piecesFound st)) eqn:Hge.
  - apply Z.geb_le in Hge. assert (Hlt : i <= 2 ^ 47) by lia.
    rewrite wrap_int_id by (unfold minInt, maxInt; lia).
    rewrite make_in_range by (unfold maxAlloc; lia).
    cbn [mbind outcome_bind].
    unfold len in *. rewrite copy_into_zeros by lia.
    set (grown := piecesFound st
                  ++ replicate (Z.to_nat (2 * i) - length (piecesFound st)) 0).
    assert (Hgl : length grown = Z.to_nat (2 * i)).
    { unfold grown. rewrite length_app, length_replicate. lia. }
    assert (Hb : grown !! Z.to_nat i = Some 0).
    { unfold grown. rewrite lookup_app_r by lia.
      apply lookup_replicate_2. lia. }
    unfold incr_at. destruct (i <? 0) eqn:Hi0; [apply Z.ltb_lt in Hi0; lia|].
    rewrite Hb. cbn [mbind outcome_bind].
    eexists. split; [reflexivity|]. cbn [piecesFound].
    rewrite length_insert, Hgl.
    split; [lia|]. split; [lia|].
    rewrite (lookup_ge_None_2 (piecesFound st)) by lia.
    cbn [default]. unfold grown. do 3 f_equal. lia.
  - rewrite Z.geb_leb in Hge. apply Z.leb_gt in Hge.
    cbn [mbind outcome_bind].
    destruct (incr_at_in_range (piecesFound st) i ltac:(lia))
      as [found' Hincr].
    rewrite Hincr. cbn [mbind outcome_bind].
    eexists. split; [reflexivity|]. cbn [piecesFound].
    apply incr_at_Ret in Hincr as (b & _ & Hb & ->).
    unfold len. rewrite length_insert.
    split; [unfold len in Hge; lia|]. split; [reflexivity|].
    rewrite Hb. cbn [default].
    rewrite Z.sub_diag. cbn [Z.to_nat replicate]. now rewrite app_nil_r.
Qed.

(** *** A scan without a piece number above 2^47 returns *)

Lemma scan_member_returns fs st header body :
  512 <= len (piecesFound st) <= maxInt ->
  (forall d i, rePieceName (Name header) = Some d -> Atoi d = inl i ->
               i <= 2 ^ 47) ->
  exists res,
    scan_member quote fs st header body = Ret res /\
    forall st', res = inl st' -> 512 <= len (piecesFound st') <= maxInt.
Proof.
  intros Hlen Hsmall.
  destruct (rePieceName (Name header)) as [m1|] eqn:Hname.
  - destruct (Atoi m1) as [i|err] eqn:Hi.
    + destruct (scan_member_piece_Ret fs st header body m1 i Hname Hi Hlen
                  (or_intror (Hsmall _ _ eq_refl Hi)))
        as (st' & Hstep & Hi' & Hlen' & _).
      exists (inl st'). split; [assumption|]. intros ? [= <-].
      rewrite Hlen'. specialize (Hsmall _ _ eq_refl Hi).
      destruct (i >=? len (piecesFound st)) eqn:Hge; [|assumption].
      apply Z.geb_le in Hge. unfold maxInt. lia.
    + unfold scan_member. rewrite Hname, Hi. eexists. split; [reflexivity|].
      discriminate.
  - unfold scan_member. rewrite Hname.
    destruct (String.eqb (Name header) "image.jpg").
    { eexists. split; [reflexivity|]. now intros ? [= <-]. }
    destruct (String.eqb (Name header) "pala.desktop").
    + destruct (scanPalaDesktopFile quote body (ret st)) as [out [e|]];
        eexists; (split; [reflexivity|]); [discriminate|now intros ? [= <-]].
    + eexists. split; [reflexivity|]. now intros ? [= <-].
Qed.





End Properties.

(** ** Examples *)

(** *** C1: two members named 3.png, and no higher piece *)

(** C1 at the archive [two_3png]: the scan returns a record without a
    warning. *)
Lemma C1_two_3png_witness :
  ScanPuzzle QuoteASCII two_3png puzzle_path = Ret (Some two_3png_record, None)
  /\ occurrences 3 (piece_numbers (archive_members two_3png puzzle_path)) = 2
  /\ highest (piece_numbers (archive_members two_3png puzzle_path)) = 3
  /\ Warnings two_3png_record = []
  /\ ~ In (members_warning 2 3) (Warnings two_3png_record).
Proof.
  split; [vm_compute; reflexivity|].
  split; [vm_compute; reflexivity|].
  split; [vm_compute; reflexivity|].
  split; [reflexivity|].
  assert (H : ScanPuzzle QuoteASCII two_3png puzzle_path
              = Ret (Some two_3png_record, None)) by (vm_compute; reflexivity).
  exact (proj1 (C1_highest_number_gets_no_warning QuoteASCII two_3png
                  puzzle_path two_3png_record None H) 2).
Defined.

(** *** C2: 0.png and 2.png only, in both orders *)

(** C2 at the archives [pieces_0_2] and [pieces_2_0]: one warning, of
    the missing piece 1, in either order. *)
Lemma C2_pieces_0_2_witness :
  ScanPuzzle QuoteASCII pieces_0_2 puzzle_path
  = Ret (Some pieces_0_2_record, None)
  /\ ScanPuzzle QuoteASCII pieces_2_0 puzzle_path
     = Ret (Some pieces_0_2_record, None)
  /\ Warnings pieces_0_2_record = [missing_warning 1]
  /\ In (missing_warning 1) (Warnings pieces_0_2_record)
  /\ exists pieces,
       Warnings pieces_0_2_record
       = Warnings (members_record QuoteASCII pieces_0_2 puzzle_path) ++ pieces
       /\ Warnings pieces_0_2_record
          = Warnings (members_record QuoteASCII pieces_2_0 puzzle_path)
            ++ pieces.
Proof.
  assert (H : ScanPuzzle QuoteASCII pieces_0_2 puzzle_path
              = Ret (Some pieces_0_2_record, None)) by (vm_compute; reflexivity).
  assert (H' : ScanPuzzle QuoteASCII pieces_2_0 puzzle_path
               = Ret (Some pieces_0_2_record, None))
    by (vm_compute; reflexivity).
  assert (Hne : piece_numbers (archive_members pieces_0_2 puzzle_path) <> [])
    by (vm_compute; discriminate).
  destruct (C2_missing_pieces_in_ascending_order QuoteASCII pieces_0_2
              puzzle_path pieces_0_2_record None H Hne)
    as (_ & Hmissing & _ & Horder).
  split; [exact H|]. split; [exact H'|]. split; [reflexivity|]. split.
  - apply (Hmissing 1); [vm_compute; split; [discriminate|reflexivity]|].
    vm_compute. intros [Heq|[Heq|[]]]; discriminate.
  - apply (Horder pieces_2_0 puzzle_path pieces_0_2_record None H').
    apply perm_swap.
Defined.

(** *** C3: five pieces, an image and a descriptor; and no piece at all *)

(** C3 at the archives [five_pieces] and [no_piece]. *)
Lemma C3_five_pieces_witness :
  ScanPuzzle QuoteASCII five_pieces puzzle_path
  = Ret (Some five_pieces_record, None)
  /\ NPieceFiles five_pieces_record
     = 1 + highest (piece_numbers (archive_members five_pieces puzzle_path))
  /\ highest (piece_numbers (archive_members five_pieces puzzle_path)) = 4
  /\ ScanPuzzle QuoteASCII no_piece puzzle_path
     = Ret (Some no_piece_record, None)
  /\ NPieceFiles no_piece_record = 0.
Proof.
  assert (H : ScanPuzzle QuoteASCII five_pieces puzzle_path
              = Ret (Some five_pieces_record, None))
    by (vm_compute; reflexivity).
  assert (H' : ScanPuzzle QuoteASCII no_piece puzzle_path
               = Ret (Some no_piece_record, None))
    by (vm_compute; reflexivity).
  split; [exact H|]. split; [|split; [vm_compute; reflexivity|split]].
  - apply (C3_piece_file_count QuoteASCII five_pieces puzzle_path
             five_pieces_record None H).
    vm_compute. discriminate.
  - exact H'.
  - apply (C3_piece_file_count QuoteASCII no_piece puzzle_path
             no_piece_record None H').
    intros m Hm. vm_compute in Hm.
    destruct Hm as [<-|[<-|[<-|[]]]]; reflexivity.
Defined.

(** *** C4: a declared count that does not parse *)

(** C4 at the lines PieceCount=abc, which does not parse, and
    020_PieceCount= 42 , which does after trimming; the value quoted in
    the warning is the trimmed one. *)
Lemma C4_bad_count_witness :
  reKeyValue "PieceCount=abc" = Some ("PieceCount", "abc")
  /\ scan_line QuoteASCII PuzzleInfo_zero "PieceCount=abc"
     = set_NPiecesDecl (-1)
         (set_Warnings ["bad PieceCount " +:+ dquote +:+ "abc" +:+ dquote]
            PuzzleInfo_zero)
  /\ scan_line QuoteASCII PuzzleInfo_zero "020_PieceCount= 42 "
     = set_NPiecesDecl 42 PuzzleInfo_zero
  /\ scan_line QuoteASCII PuzzleInfo_zero "PieceCount=  abc "
     = set_NPiecesDecl (-1)
         (set_Warnings ["bad PieceCount " +:+ dquote +:+ "abc" +:+ dquote]
            PuzzleInfo_zero)
  /\ ScanPuzzle QuoteASCII bad_count puzzle_path
     = Ret (Some bad_count_record, None)
  /\ NPiecesDecl two_3png_record = 0.
Proof.
  split; [reflexivity|]. split; [|split; [|split; [|split]]].
  - apply (C4_declared_piece_count QuoteASCII PuzzleInfo_zero
             "PieceCount=abc" "PieceCount" "abc" eq_refl (or_introl eq_refl))
      with (err := NumError "Atoi" "abc" ErrSyntax).
    reflexivity.
  - apply (C4_declared_piece_count QuoteASCII PuzzleInfo_zero
             "020_PieceCount= 42 " "020_PieceCount" " 42 " eq_refl
             (or_intror eq_refl)).
    reflexivity.
  - vm_compute. reflexivity.
  - vm_compute. reflexivity.
  - apply (C4_declared_piece_count QuoteASCII PuzzleInfo_zero
             "PieceCount=abc" "PieceCount" "abc" eq_refl (or_introl eq_refl))
      with (os := two_3png) (fs := puzzle_path) (e := @None Error).
    + vm_compute. reflexivity.
    + intros l [].
Defined.

(** *** C5: a descriptor with a comment of 70000 bytes

    The reader of the member does not fail, and the parser returns an
    error all the same: the line does not fit the buffer of the
    scanner. *)

(** C5 at [long_comment]: no read error, and an error of the parser. *)
Lemma C5_long_line_counterexample :
  r_err long_comment = None
  /\ snd (scanPalaDesktopFile QuoteASCII long_comment PuzzleInfo_zero)
     = Some (mkError
               ("cannot read " +:+ dquote +:+ "pala.desktop" +:+ dquote
                +:+ " member in ")
               "?" (Some ErrTooLong)).
Proof. split; [reflexivity|]. vm_compute. reflexivity. Qed.

(** *** C6: a piece with the number 2^62 *)

(** C6 at the archive [large_piece]: the scan panics. *)
Lemma C6_large_piece_witness :
  piece_numbers (archive_members large_piece puzzle_path) = [2 ^ 62]
  /\ ScanPuzzle QuoteASCII large_piece puzzle_path
     = Panic MakesliceLenOutOfRange.
Proof.
  split; [vm_compute; reflexivity|].
  apply (C6_scan_panics_on_large_piece_number QuoteASCII large_piece
           puzzle_path (mkFile (inl 4096) (inl (mkTar
              [piece "4611686018427387904.png"] None)))
           4096 (mkTar [piece "4611686018427387904.png"] None)
           (mkHeader "4611686018427387904.png" 0)
           (mkReader EmptyString None) [] "4611686018427387904" (2 ^ 62));
    first [reflexivity | vm_compute; discriminate].
Defined.

(** *** C7: two images, and a piece that comes twice *)

(** C7 at the archive [two_images]: the size of the second image, and
    the two members of the piece 1. *)
Lemma C7_two_images_witness :
  ScanPuzzle QuoteASCII two_images puzzle_path
  = Ret (Some two_images_record, None)
  /\ image_sizes (archive_members two_images puzzle_path) = [10; 20]
  /\ ImageFileSize two_images_record
     = List.last (image_sizes (archive_members two_images puzzle_path)) 0
  /\ In (members_warning 2 1) (Warnings two_images_record).
Proof.
  assert (H : ScanPuzzle QuoteASCII two_images puzzle_path
              = Ret (Some two_images_record, None))
    by (vm_compute; reflexivity).
  destruct (C7_last_image_wins_pieces_all_counted QuoteASCII two_images
              puzzle_path two_images_record None H) as (Himage & _ & Hpieces).
  split; [exact H|]. split; [reflexivity|]. split; [exact Himage|].
  apply Hpieces. vm_compute. repeat split; discriminate.
Defined.

(** *** C9: 256 and 257 members named 0.png *)

(** C9 at 256 members named 0.png: the piece 0 is reported as missing. *)
Lemma C9_256_members_witness :
  ScanPuzzle QuoteASCII (many_0png 256) puzzle_path
  = Ret (Some (many_0png_record [missing_warning 0]), None)
  /\ occurrences 0 (piece_numbers (archive_members (many_0png 256) puzzle_path))
     = 256
  /\ In (missing_warning 0) (Warnings (many_0png_record [missing_warning 0])).
Proof.
  assert (H : ScanPuzzle QuoteASCII (many_0png 256) puzzle_path
              = Ret (Some (many_0png_record [missing_warning 0]), None))
    by (vm_compute; reflexivity).
  assert (Hn : occurrences 0
                 (piece_numbers (archive_members (many_0png 256) puzzle_path))
               = 256) by (vm_compute; reflexivity).
  split; [exact H|]. split; [exact Hn|].
  apply (C9_counts_modulo_256 QuoteASCII (many_0png 256) puzzle_path
           (many_0png_record [missing_warning 0]) None 0 H).
  - vm_compute. split; [discriminate|reflexivity].
  - exact Hn.
Defined.

(** C9 at 257 members named 0.png, which the claim has reported as 1
    members named 0.png: the record holds no warning. *)
Lemma C9_257_members_counterexample :
  ScanPuzzle QuoteASCII (many_0png 257) puzzle_path
  = Ret (Some (many_0png_record []), None)
  /\ occurrences 0 (piece_numbers (archive_members (many_0png 257) puzzle_path))
     = 257
  /\ highest (piece_numbers (archive_members (many_0png 257) puzzle_path)) = 1
  /\ Warnings (many_0png_record []) = [].
Proof. repeat split; vm_compute; reflexivity. Qed.

(** *** C10: the first write for a piece with the number 2^62 *)


(** The lowest piece number that makes a first write panic: the length
    2 * i is not negative, and two bytes above [maxAlloc]. *)
Example allocation_limit :
  wrap_int (2 * (2 ^ 47 + 1)) = maxAlloc + 2
  /\ ScanPuzzle QuoteASCII (archive [piece "140737488355329.png"]) puzzle_path
     = Panic MakesliceLenOutOfRange.
Proof. split; vm_compute; reflexivity. Qed.

(** *** Besides the claims *)


(** The text of the error of a scan of a path without a file: the action
    of the error is the text cannot open, after the word cannot of
    [Error.Error], and the path error of [os.Open] is unwrapped. *)
Example open_error_text :
  exists e,
    ScanPuzzle QuoteASCII five_pieces "nowhere.puzzle" = Ret (None, Some e) /\
    Action e = "cannot open" /\
    BaseError e
    = Some (PathError "open" "nowhere.puzzle"
              (ErrorString "no such file or directory")) /\
    Error_Error QuoteASCII e
    = "cannot cannot open " +:+ dquote +:+ "nowhere.puzzle" +:+ dquote
      +:+ ": no such file or directory" /\
    Part000.Error_Error QuoteASCII e = Ret (Error_Error QuoteASCII e).
Proof. eexists. repeat split. Qed.

(** * More of the package

    The two patterns, the fields and the warnings of a record, the error
    of a scan, its panics, the size of the tally, and the two revisions
    side by side. *)

(** ** The patterns *)

Lemma span_app p s a b : span p s = (a, b) -> s = a +:+ b.
Proof.
  revert a b. induction s as [|c r IH]; intros a b; cbn [span].
  - now intros [= <- <-].
  - destruct (p c); [|now intros [= <- <-]].
    destruct (span p r) as [a' b']. intros [= <- <-].
    now rewrite (IH a' b' eq_refl).
Qed.

Lemma span_forallb p s a b : span p s = (a, b) -> string_forallb p a = true.
Proof.
  revert a b. induction s as [|c r IH]; intros a b; cbn [span].
  - now intros [= <- <-].
  - destruct (p c) eqn:Hc; [|now intros [= <- <-]].
    destruct (span p r) as [a' b']. intros [= <- <-].
    cbn. rewrite Hc. now apply (IH a' b').
Qed.

Lemma span_stop p s a c b : span p s = (a, String c b) -> p c = false.
Proof.
  revert a. induction s as [|c' r IH]; intros a; cbn [span].
  - discriminate.
  - destruct (p c') eqn:Hc; [|now intros [= <- <- <-]].
    destruct (span p r) as [a' b']. intros [= <- ->]. now apply (IH a').
Qed.

Lemma span_intro p a c b :
  string_forallb p a = true -> p c = false ->
  span p (a +:+ String c b) = (a, String c b).
Proof.
  intros Ha Hc. induction a as [|x a IH].
  - change (EmptyString +:+ String c b) with (String c b).
    cbn [span]. now rewrite Hc.
  - change (String x a +:+ String c b) with (String x (a +:+ String c b)).
    cbn [span]. cbn [string_forallb] in Ha.
    apply andb_prop in Ha as [Hx Ha]. rewrite Hx. now rewrite (IH Ha).
Qed.

Section Patterns.

Variable quote : string -> string.

Lemma reKeyValue_Some line key value :
  reKeyValue line = Some (key, value) <->
  line = key +:+ String "="%char value /\ key <> EmptyString /\
  string_forallb is_key_char key = true /\
  string_forallb not_newline value = true.
Proof.
  unfold reKeyValue. split.
  - destruct (span is_key_char line) as [k rest] eqn:Hs.
    destruct k as [|c k]; [discriminate|].
    destruct rest as [|e v]; [discriminate|].
    pose proof (span_stop _ _ _ _ _ Hs) as He.
    destruct (Ascii.eqb_spec e "="%char) as [->|Hne].
    + destruct (string_forallb _ v) eqn:Hv; [|discriminate].
      intros [= <- <-]. apply span_app in Hs as Happ.
      apply span_forallb in Hs. repeat split; auto; discriminate.
    + destruct e as [[] [] [] [] [] [] [] []]; try discriminate.
      now destruct Hne.
  - intros (-> & Hne & Hk & Hv).
    rewrite (span_intro is_key_char key "="%char value Hk eq_refl).
    destruct key; [now destruct Hne|].
    unfold not_newline in Hv. now rewrite Hv.
Qed.

(** X2. The pattern of the lines of the descriptor matches exactly the
    lines made of a key that is not empty and has no opening square
    bracket and no equals sign in it, an equals sign, and a value without
    a newline; it gives that key and that value. *)
Theorem X2_reKeyValue_matches line key value :
  reKeyValue line = Some (key, value) <->
  line = key +:+ String "="%char value /\ key <> EmptyString /\
  string_forallb is_key_char key = true /\
  string_forallb not_newline value = true.
Proof. apply reKeyValue_Some. Qed.

(** X3. The pattern of the names of the pieces matches exactly the names
    made of one or more decimal digits and the ending .png; it gives the
    digits. *)
Theorem X3_rePieceName_matches name digits :
  rePieceName name = Some digits <->
  name = digits +:+ ".png" /\ digits <> EmptyString /\
  string_forallb is_digit digits = true.
Proof.
  unfold rePieceName. split.
  - destruct (span is_digit name) as [d rest] eqn:Hs.
    destruct d as [|c d]; [discriminate|].
    destruct (String.eqb_spec rest ".png") as [->|]; [|discriminate].
    intros [= <-]. apply span_app in Hs as Happ. apply span_forallb in Hs.
    repeat split; auto; discriminate.
  - intros (-> & Hne & Hd).
    rewrite (span_intro is_digit digits "."%char "png" Hd eq_refl).
    destruct digits; [now destruct Hne|reflexivity].
Qed.

Lemma bracket_line_differs s rest key value :
  string_forallb not_equals s = true ->
  string_forallb is_key_char key = true ->
  s +:+ String "["%char rest <> key +:+ String "="%char value.
Proof.
  revert key. induction s as [|a s IH]; intros [|c k] Hs Hk; cbn.
  - discriminate.
  - intros [= <- _]. discriminate.
  - intros [= -> _]. discriminate.
  - intros [= <- H]. cbn in Hs, Hk.
    apply andb_prop in Hs as [_ Hs]. apply andb_prop in Hk as [_ Hk].
    exact (IH k Hs Hk H).
Qed.

(** X4. A line with an opening square bracket before its first equals
    sign, as the line of a key with a locale, changes nothing in the
    record. *)
Theorem X4_bracket_before_equals_ignored out s rest :
  string_forallb not_equals s = true ->
  scan_line quote out (s +:+ String "["%char rest) = out.
Proof.
  intros Hs. unfold scan_line.
  destruct (reKeyValue (s +:+ String "["%char rest)) as [[key value]|] eqn:Hm;
    [|reflexivity].
  apply reKeyValue_Some in Hm as (Hline & _ & Hk & _).
  now destruct (bracket_line_differs s rest key value Hs Hk).
Qed.

End Patterns.

(** ** The numbers of the pieces *)

Lemma digits_value_Some acc s :
  string_forallb is_digit s = true -> exists v, digits_value acc s = Some v.
Proof.
  revert acc. induction s as [|c r IH]; intros acc Hs; cbn [digits_value].
  - eauto.
  - cbn [string_forallb] in Hs. apply andb_prop in Hs as [Hc Hr].
    rewrite Hc. now apply IH.
Qed.

Lemma Atoi_digits d v :
  d <> EmptyString -> string_forallb is_digit d = true ->
  digits_value 0 d = Some v ->
  0 <= v /\
  Atoi d = if v <=? maxInt then inl v else inr (NumError "Atoi" d ErrRange).
Proof.
  intros Hne Hd Hv. destruct d as [|c a]; [now destruct Hne|].
  cbn [string_forallb] in Hd. apply andb_prop in Hd as [Hc _].
  assert (H0 : 0 <= v) by (eapply digits_value_range; [|exact Hv]; lia).
  split; [assumption|]. unfold Atoi.
  assert (Hbody : (match String c a with
                   | String "-"%char r => (true, r)
                   | String "+"%char r => (false, r)
                   | _ => (false, String c a)
                   end) = (false, String c a)).
  { destruct c as [[] [] [] [] [] [] [] []]; try reflexivity;
      discriminate. }
  rewrite Hbody, Hv.
  assert (Hmin : (minInt <=? v) = true)
    by (apply Z.leb_le; unfold minInt; lia).
  now rewrite Hmin.
Qed.

Lemma digits_value_zeros k d :
  digits_value 0 (string_repeat "0"%char k +:+ d) = digits_value 0 d.
Proof. induction k as [|k IH]; [reflexivity|exact IH]. Qed.

Lemma zeros_digits k d :
  string_forallb is_digit d = true ->
  string_forallb is_digit (string_repeat "0"%char k +:+ d) = true.
Proof. intros Hd. induction k as [|k IH]; [exact Hd|exact IH]. Qed.

Lemma piece_number_digits d size v :
  d <> EmptyString -> string_forallb is_digit d = true ->
  digits_value 0 d = Some v ->
  piece_number (mkHeader (d +:+ ".png") size)
  = if v <=? maxInt then Some v else None.
Proof.
  intros Hne Hd Hv. unfold piece_number. cbn [Name].
  assert (Hm : rePieceName (d +:+ ".png") = Some d).
  { unfold rePieceName.
    rewrite (span_intro is_digit d "."%char "png" Hd eq_refl).
    destruct d; [now destruct Hne|reflexivity]. }
  rewrite Hm. destruct (Atoi_digits d v Hne Hd Hv) as [_ ->].
  now destruct (v <=? maxInt).
Qed.

(** X5. The number of a piece is the decimal value of the digits of its
    name when the value is an [int], and the name has no number when it
    is not. Zeros before the digits do not change the number: the names
    7.png and 007.png are the same piece. *)
Theorem X5_piece_number_value digits size :
  digits <> EmptyString -> string_forallb is_digit digits = true ->
  exists v,
    digits_value 0 digits = Some v /\ 0 <= v /\
    piece_number (mkHeader (digits +:+ ".png") size)
    = (if v <=? maxInt then Some v else None) /\
    forall k size',
      piece_number
        (mkHeader ((string_repeat "0"%char k +:+ digits) +:+ ".png") size')
      = piece_number (mkHeader (digits +:+ ".png") size).
Proof.
  intros Hne Hd. destruct (digits_value_Some 0 digits Hd) as [v Hv].
  exists v. split; [assumption|]. split.
  { eapply digits_value_range; [|exact Hv]. lia. }
  split; [now apply piece_number_digits|].
  intros k size'.
  rewrite (piece_number_digits digits size v Hne Hd Hv).
  apply piece_number_digits.
  - destruct k; [assumption|discriminate].
  - now apply zeros_digits.
  - now rewrite digits_value_zeros.
Qed.

(** ** The fields of a record *)

Lemma last_app_default {A} (l1 l2 : list A) d :
  List.last (l1 ++ l2) d = List.last l2 (List.last l1 d).
Proof.
  revert d. induction l1 as [|a l1 IH]; intros d; [reflexivity|].
  change ((a :: l1) ++ l2) with (a :: (l1 ++ l2)).
  now rewrite !last_cons_default, IH.
Qed.

Lemma Split_spec path :
  fst (Split path) +:+ snd (Split path) = path /\
  string_forallb not_slash (snd (Split path)) = true /\
  (fst (Split path) = EmptyString \/
   exists d, fst (Split path) = d +:+ "/").
Proof.
  induction path as [|c r (Happ & Hfile & Hdir)]; [cbn; auto|].
  cbn [Split]. destruct (Split r) as [d f]. cbn [fst snd] in *.
  destruct d as [|x d].
  - destruct (Ascii.eqb_spec c "/"%char) as [->|Hc]; cbn [fst snd].
    + split; [now rewrite <- Happ|]. split; [assumption|].
      right. now exists EmptyString.
    + split; [now rewrite <- Happ|]. split; [|now left].
      cbn [string_forallb]. rewrite Hfile. unfold not_slash.
      destruct (Ascii.eqb_spec c "/"%char); [contradiction|reflexivity].
  - cbn [fst snd]. split; [cbn; now rewrite <- Happ|].
    split; [assumption|]. right.
    destruct Hdir as [Hd|[d' Hd]]; [discriminate|].
    exists (String c d'). cbn. now rewrite Hd.
Qed.

Section Fields.

Variable quote : string -> string.

Ltac scan_line_key k :=
  destruct (String.eqb_spec k "Name") as [->|];
  [try reflexivity|
   destruct (String.eqb_spec k "X-KDE-PluginInfo-Author") as [->|];
   [try reflexivity|
    destruct (String.eqb_spec k "Comment") as [->|];
    [try reflexivity|
     destruct (String.eqb_spec k "PieceCount") as [->|];
     [try reflexivity|
      destruct (String.eqb_spec k "020_PieceCount") as [->|];
      try reflexivity]]]].

Lemma scan_line_Title out line :
  Title (scan_line quote out line)
  = default (Title out) (line_field "Name" line).
Proof.
  unfold scan_line, line_field.
  destruct (reKeyValue line) as [[k m2]|]; [|reflexivity].
  scan_line_key k; cbn; destruct (Atoi _); reflexivity.
Qed.

Lemma scan_line_Author out line :
  Author (scan_line quote out line)
  = default (Author out) (line_field "X-KDE-PluginInfo-Author" line).
Proof.
  unfold scan_line, line_field.
  destruct (reKeyValue line) as [[k m2]|]; [|reflexivity].
  scan_line_key k; cbn; destruct (Atoi _); reflexivity.
Qed.

Lemma scan_line_Comment out line :
  Comment (scan_line quote out line)
  = default (Comment out) (line_field "Comment" line).
Proof.
  unfold scan_line, line_field.
  destruct (reKeyValue line) as [[k m2]|]; [|reflexivity].
  scan_line_key k; cbn; destruct (Atoi _); reflexivity.
Qed.

Lemma scan_line_count out line :
  NPiecesDecl (scan_line quote out line)
  = default (NPiecesDecl out) (line_count line).
Proof.
  unfold scan_line, line_count, count_key.
  destruct (reKeyValue line) as [[k m2]|]; [|reflexivity].
  scan_line_key k; cbn; destruct (Atoi _); reflexivity.
Qed.

Lemma scan_line_Warnings out line :
  Warnings (scan_line quote out line)
  = Warnings out ++ option_list (line_warning quote line).
Proof.
  unfold scan_line, line_warning, count_key.
  destruct (reKeyValue line) as [[k m2]|]; [|now rewrite app_nil_r].
  scan_line_key k; cbn; try destruct (Atoi _); cbn;
    now rewrite ?app_nil_r.
Qed.

Ltac scan_line_branches :=
  unfold scan_line;
  repeat match goal with
         | |- context [match reKeyValue ?l with _ => _ end] =>
             destruct (reKeyValue l) as [[? ?]|]
         | |- context [if String.eqb ?a ?b then _ else _] =>
             destruct (String.eqb a b)
         | |- context [if ?a || ?b then _ else _] =>
             destruct (a || b)
         | |- context [match Atoi ?v with _ => _ end] =>
             destruct (Atoi v)
         end.

Lemma scan_line_Dir out line : Dir (scan_line quote out line) = Dir out.
Proof. scan_line_branches; reflexivity. Qed.

Lemma scan_line_Filename out line :
  Filename (scan_line quote out line) = Filename out.
Proof. scan_line_branches; reflexivity. Qed.

Lemma scan_line_PuzzleFileSize out line :
  PuzzleFileSize (scan_line quote out line) = PuzzleFileSize out.
Proof. scan_line_branches; reflexivity. Qed.

(** Which lines a member adds to those of the descriptors. *)
Lemma descriptor_lines_cons m members :
  descriptor_lines (m :: members)
  = (if String.eqb (Name (fst m)) "pala.desktop"
     then fst (Scanner_run (snd m)) else [])
    ++ descriptor_lines members.
Proof. reflexivity. Qed.

(** A member changes the record as its lines do, but for the size of the
    image. *)
Lemma record_member_lines p m :
  exists q,
    record_member quote p m
    = fold_left (scan_line quote)
        (if String.eqb (Name (fst m)) "pala.desktop"
         then fst (Scanner_run (snd m)) else [])
        q /\
    (q = p \/ exists v, q = set_ImageFileSize v p).
Proof.
  unfold record_member.
  destruct (String.eqb_spec (Name (fst m)) "pala.desktop") as [Hn|Hn].
  - rewrite Hn. cbn. rewrite scanPalaDesktopFile_fst. eauto.
  - destruct (rePieceName _); [cbn; eauto|].
    destruct (String.eqb _ "image.jpg"); cbn; eauto.
Qed.

Section Field.

Context {B : Type} (F : PuzzleInfo -> B) (g : string -> option B).
Hypothesis F_line :
  forall out line, F (scan_line quote out line) = default (F out) (g line).
Hypothesis F_image : forall v p, F (set_ImageFileSize v p) = F p.

Lemma fold_scan_line_last lines out :
  F (fold_left (scan_line quote) lines out)
  = List.last (omap g lines) (F out).
Proof.
  revert out. induction lines as [|l ls IH]; intros out; [reflexivity|].
  cbn [fold_left omap list_omap]. rewrite IH, F_line.
  destruct (g l); [now rewrite last_cons_default|reflexivity].
Qed.

Lemma fold_record_member_last members p :
  F (fold_left (record_member quote) members p)
  = List.last (omap g (descriptor_lines members)) (F p).
Proof.
  revert p. induction members as [|m ms IH]; intros p; [reflexivity|].
  cbn [fold_left]. rewrite IH, descriptor_lines_cons, omap_app.
  rewrite last_app_default. f_equal.
  destruct (record_member_lines p m) as (q & -> & [->|[v ->]]);
    rewrite fold_scan_line_last; [reflexivity|now rewrite F_image].
Qed.

End Field.

Lemma fold_scan_line_Warnings lines out :
  Warnings (fold_left (scan_line quote) lines out)
  = Warnings out ++ omap (line_warning quote) lines.
Proof.
  revert out. induction lines as [|l ls IH]; intros out;
    [now rewrite app_nil_r|].
  cbn [fold_left omap list_omap]. rewrite IH, scan_line_Warnings.
  rewrite <- app_assoc. f_equal. now destruct (line_warning quote l).
Qed.

Lemma fold_record_member_Warnings members p :
  Warnings (fold_left (record_member quote) members p)
  = Warnings p ++ omap (line_warning quote) (descriptor_lines members).
Proof.
  revert p. induction members as [|m ms IH]; intros p;
    [now rewrite app_nil_r|].
  cbn [fold_left]. rewrite IH, descriptor_lines_cons, omap_app, app_assoc.
  f_equal.
  destruct (record_member_lines p m) as (q & -> & [->|[v ->]]);
    now rewrite fold_scan_line_Warnings.
Qed.

Section Kept.

Context {B : Type} (F : PuzzleInfo -> B).
Hypothesis F_line : forall out line, F (scan_line quote out line) = F out.
Hypothesis F_image : forall v p, F (set_ImageFileSize v p) = F p.

Lemma fold_record_member_kept members p :
  F (fold_left (record_member quote) members p) = F p.
Proof.
  revert p. induction members as [|m ms IH]; intros p; [reflexivity|].
  cbn [fold_left]. rewrite IH.
  destruct (record_member_lines p m) as (q & -> & Hq).
  assert (Hfold : forall lines out,
             F (fold_left (scan_line quote) lines out) = F out).
  { induction lines as [|l ls IHl]; intros out; [reflexivity|].
    cbn [fold_left]. now rewrite IHl, F_line. }
  rewrite Hfold. destruct Hq as [->|[v ->]]; [reflexivity|apply F_image].
Qed.

End Kept.

(** X6. In the record of a scan, the title, the author and the comment
    are the trimmed values of the last lines, over all the descriptors of
    the archive in order, with the keys Name, X-KDE-PluginInfo-Author and
    Comment, and the declared count is what the last line with a key of
    the count gives; without such a line the field is empty, or 0. *)
Theorem X6_last_line_of_a_key_wins os fs r e :
  ScanPuzzle quote os fs = Ret (Some r, e) ->
  let lines := descriptor_lines (archive_members os fs) in
  Title r = List.last (omap (line_field "Name") lines) EmptyString /\
  Author r
  = List.last (omap (line_field "X-KDE-PluginInfo-Author") lines)
      EmptyString /\
  Comment r = List.last (omap (line_field "Comment") lines) EmptyString /\
  NPiecesDecl r = List.last (omap line_count lines) 0.
Proof.
  intros H. cbv zeta.
  pose proof (ScanPuzzle_Some _ _ _ _ _ H) as (_ & _ & ->).
  unfold members_record.
  cbn [Title Author Comment NPiecesDecl set_NPieceFiles set_Warnings].
  rewrite (fold_record_member_last Title (line_field "Name"))
    by (auto using scan_line_Title).
  rewrite (fold_record_member_last Author
             (line_field "X-KDE-PluginInfo-Author"))
    by (auto using scan_line_Author).
  rewrite (fold_record_member_last Comment (line_field "Comment"))
    by (auto using scan_line_Comment).
  rewrite (fold_record_member_last NPiecesDecl line_count)
    by (auto using scan_line_count).
  auto.
Qed.

(** X7. The warnings of the record of a scan are, first, one warning of
    a bad PieceCount for every line of the descriptors with a key of the
    count whose trimmed value does not parse, in the order of the lines,
    and then the warnings about the pieces. *)
Theorem X7_warnings_of_a_record os fs r e :
  ScanPuzzle quote os fs = Ret (Some r, e) ->
  Warnings r
  = omap (line_warning quote) (descriptor_lines (archive_members os fs))
    ++ tally_warnings (piece_numbers (archive_members os fs)).
Proof.
  intros H. pose proof (ScanPuzzle_Some _ _ _ _ _ H) as (_ & _ & ->).
  cbn [Warnings set_NPieceFiles set_Warnings]. unfold members_record.
  now rewrite fold_record_member_Warnings.
Qed.

(** X8. The record of a scan of the path [fs] holds the path cut after
    its last slash: the directory is empty or ends with a slash, the file
    name has no slash, and the one after the other is [fs]. It holds the
    size [Stat] gave. No member of the archive changes these fields. *)
Theorem X8_location_of_a_record os fs r e :
  ScanPuzzle quote os fs = Ret (Some r, e) ->
  Dir r +:+ Filename r = fs /\
  string_forallb not_slash (Filename r) = true /\
  (Dir r = EmptyString \/ exists d, Dir r = d +:+ "/") /\
  PuzzleFileSize r = archive_size os fs.
Proof.
  intros H. pose proof (ScanPuzzle_Some _ _ _ _ _ H) as (_ & _ & ->).
  cbn [Dir Filename PuzzleFileSize set_NPieceFiles set_Warnings].
  unfold members_record.
  rewrite (fold_record_member_kept Dir) by (auto using scan_line_Dir).
  rewrite (fold_record_member_kept Filename)
    by (auto using scan_line_Filename).
  rewrite (fold_record_member_kept PuzzleFileSize)
    by (auto using scan_line_PuzzleFileSize).
  cbn. destruct (Split_spec fs) as (Happ & Hfile & Hdir). auto.
Qed.

End Fields.

(** ** An archive with every piece once *)

Lemma highest_seqZ n : 0 < n -> highest (seqZ 0 n) = n - 1.
Proof.
  intros Hn. apply Z.le_antisymm.
  - assert (Hin : In (highest (seqZ 0 n)) (seqZ 0 n)).
    { apply highest_In.
      - intros Hnil. assert (H0 : In 0 (seqZ 0 n)) by (apply In_seqZ; lia).
        rewrite Hnil in H0. destruct H0.
      - intros i Hi. apply In_seqZ in Hi. lia. }
    apply In_seqZ in Hin. lia.
  - apply highest_In_le, In_seqZ. lia.
Qed.

Lemma occurrences_seqZ i n : 0 <= i < n -> occurrences i (seqZ 0 n) = 1.
Proof.
  intros Hi. unfold occurrences.
  rewrite (proj1 (NoDup_count_occ' Z.eq_dec (seqZ 0 n))).
  - reflexivity.
  - apply NoDup_ListNoDup, NoDup_seqZ.
  - apply In_seqZ. lia.
Qed.

Lemma tally_warnings_seqZ n : tally_warnings (seqZ 0 n) = [].
Proof.
  unfold tally_warnings.
  assert (H : forall range,
             (forall i, In i range -> 0 <= i < n) ->
             flat_map (fun i => piece_warning
                                  (occurrences i (seqZ 0 n) mod 256) i) range
             = []).
  { induction range as [|i range IH]; intros Hr; [reflexivity|].
    cbn [flat_map]. rewrite occurrences_seqZ by (apply Hr; now left).
    rewrite IH by (intros; apply Hr; now right). reflexivity. }
  apply H. intros i Hi. apply In_seqZ in Hi.
  destruct (Z_lt_le_dec 0 n) as [Hn|Hn].
  - rewrite highest_seqZ in Hi by assumption. lia.
  - assert (Hnil : seqZ 0 n = []).
    { apply length_zero_iff_nil. rewrite length_seqZ. lia. }
    rewrite Hnil in Hi. cbn in Hi. lia.
Qed.

Section Complete.

Variable quote : string -> string.

(** X9. When the numbers of the pieces of an archive are 0 to n - 1, each
    once and in any order, the record of the scan counts n piece files
    and holds no warning about the pieces: its warnings are those of the
    lines of the descriptors. *)
Theorem X9_every_piece_once os fs r e n :
  ScanPuzzle quote os fs = Ret (Some r, e) ->
  0 < n ->
  Permutation (piece_numbers (archive_members os fs)) (seqZ 0 n) ->
  NPieceFiles r = n /\
  Warnings r
  = omap (line_warning quote) (descriptor_lines (archive_members os fs)) /\
  forall i m, ~ In (missing_warning i) (Warnings r) /\
              ~ In (members_warning m i) (Warnings r).
Proof.
  intros H Hn Hperm.
  pose proof (ScanPuzzle_Some _ _ _ _ _ H) as (_ & _ & Hr).
  pose proof (tally_warnings_Permutation _ _ Hperm) as Htally.
  rewrite tally_warnings_seqZ in Htally.
  split; [|split].
  - rewrite Hr. cbn [NPieceFiles set_NPieceFiles].
    rewrite (highest_Permutation _ _ Hperm), highest_seqZ by assumption. lia.
  - rewrite Hr. cbn [Warnings set_NPieceFiles set_Warnings].
    rewrite Htally, app_nil_r. unfold members_record.
    now rewrite fold_record_member_Warnings.
  - intros i m. split; intros Hin.
    + apply (In_Warnings_missing _ _ _ _ _ _ H) in Hin as [Hi Hocc].
      rewrite (highest_Permutation _ _ Hperm), highest_seqZ in Hi
        by assumption.
      rewrite (occurrences_Permutation _ _ _ Hperm) in Hocc.
      rewrite occurrences_seqZ in Hocc by lia. discriminate.
    + apply (In_Warnings_members _ _ _ _ _ _ _ H) in Hin as (Hi & -> & Hm).
      rewrite (highest_Permutation _ _ Hperm), highest_seqZ in Hi
        by assumption.
      rewrite (occurrences_Permutation _ _ _ Hperm) in Hm.
      rewrite occurrences_seqZ in Hm by lia.
      change (1 mod 256) with 1 in Hm. lia.
Qed.

End Complete.

(** ** The order of the members *)

Section Order.

Variable quote : string -> string.

Lemma PuzzleInfo_ext p q :
  Dir p = Dir q -> Filename p = Filename q -> Title p = Title q ->
  Author p = Author q -> Comment p = Comment q -> Warnings p = Warnings q ->
  NPieceFiles p = NPieceFiles q -> NPiecesDecl p = NPiecesDecl q ->
  ImageFileSize p = ImageFileSize q -> PuzzleFileSize p = PuzzleFileSize q ->
  p = q.
Proof. destruct p, q. cbn. intros. subst. reflexivity. Qed.

(** The record of a scan, field by field, from the path, the size of the
    file, the lines of the descriptors, the sizes of the images and the
    piece numbers. *)
Lemma ScanPuzzle_fields os fs r e :
  ScanPuzzle quote os fs = Ret (Some r, e) ->
  r = mkPuzzleInfo (fst (Split fs)) (snd (Split fs))
        (List.last (omap (line_field "Name")
                      (descriptor_lines (archive_members os fs)))
           EmptyString)
        (List.last (omap (line_field "X-KDE-PluginInfo-Author")
                      (descriptor_lines (archive_members os fs)))
           EmptyString)
        (List.last (omap (line_field "Comment")
                      (descriptor_lines (archive_members os fs)))
           EmptyString)
        (omap (line_warning quote) (descriptor_lines (archive_members os fs))
         ++ tally_warnings (piece_numbers (archive_members os fs)))
        (highest (piece_numbers (archive_members os fs)) + 1)
        (List.last (omap line_count
                      (descriptor_lines (archive_members os fs))) 0)
        (List.last (image_sizes (archive_members os fs)) 0)
        (archive_size os fs).
Proof.
  intros H. pose proof (ScanPuzzle_Some _ _ _ _ _ H) as (_ & _ & ->).
  apply PuzzleInfo_ext;
    cbn [Dir Filename Title Author Comment Warnings NPieceFiles NPiecesDecl
         ImageFileSize PuzzleFileSize set_NPieceFiles set_Warnings];
    unfold members_record.
  - now rewrite (fold_record_member_kept quote Dir)
      by (auto using scan_line_Dir).
  - now rewrite (fold_record_member_kept quote Filename)
      by (auto using scan_line_Filename).
  - now rewrite (fold_record_member_last quote Title (line_field "Name"))
      by (auto using scan_line_Title).
  - now rewrite (fold_record_member_last quote Author
                   (line_field "X-KDE-PluginInfo-Author"))
      by (auto using scan_line_Author).
  - now rewrite (fold_record_member_last quote Comment (line_field "Comment"))
      by (auto using scan_line_Comment).
  - now rewrite fold_record_member_Warnings.
  - reflexivity.
  - now rewrite (fold_record_member_last quote NPiecesDecl line_count)
      by (auto using scan_line_count).
  - now rewrite fold_record_member_ImageFileSize.
  - now rewrite (fold_record_member_kept quote PuzzleFileSize)
      by (auto using scan_line_PuzzleFileSize).
Qed.

(** X11. The tally does not keep the order of the pieces, and a piece
    leaves nothing else in the record. Two scans of the same path that
    both return a record return the same one when the two files have
    the same size, their descriptors the same lines in the same order,
    their last images the same size, and the piece numbers of the one
    archive are those of the other in another order, each as many
    times. *)
Theorem X11_order_of_the_pieces os os' fs r e r' e' :
  ScanPuzzle quote os fs = Ret (Some r, e) ->
  ScanPuzzle quote os' fs = Ret (Some r', e') ->
  archive_size os fs = archive_size os' fs ->
  descriptor_lines (archive_members os fs)
  = descriptor_lines (archive_members os' fs) ->
  List.last (image_sizes (archive_members os fs)) 0
  = List.last (image_sizes (archive_members os' fs)) 0 ->
  Permutation (piece_numbers (archive_members os fs))
    (piece_numbers (archive_members os' fs)) ->
  r = r' /\ e = e'.
Proof.
  intros H H' Hsize Hlines Himage Hperm.
  pose proof (ScanPuzzle_Some _ _ _ _ _ H) as (-> & _).
  pose proof (ScanPuzzle_Some _ _ _ _ _ H') as (-> & _).
  split; [|reflexivity].
  rewrite (ScanPuzzle_fields _ _ _ _ H), (ScanPuzzle_fields _ _ _ _ H').
  rewrite Hsize, Hlines, Himage.
  now rewrite (tally_warnings_Permutation _ _ Hperm),
    (highest_Permutation _ _ Hperm).
Qed.

End Order.

(** ** The error of a scan, and the members it reads *)

Section Errors.

Variable quote : string -> string.

Lemma scan_member_error fs st header body res :
  scan_member quote fs st header body = Ret res ->
  member_error quote fs (header, body)
  = match res with inl _ => None | inr e => Some e end.
Proof.
  unfold scan_member, member_error. cbn [fst snd].
  destruct (rePieceName (Name header)) as [m1|].
  - destruct (Atoi m1) as [i|err]; [|now intros [= <-]].
    destruct (if i >=? _ then _ else _) as [found|]; [|discriminate].
    cbn [mbind outcome_bind].
    destruct (incr_at found i); [|discriminate].
    cbn [mbind outcome_bind]. now intros [= <-].
  - destruct (String.eqb_spec (Name header) "image.jpg") as [Hn|_].
    { rewrite Hn. now intros [= <-]. }
    destruct (String.eqb (Name header) "pala.desktop");
      [|now intros [= <-]].
    pose proof (scanPalaDesktopFile_snd quote body (ret st)) as Hsnd.
    destruct (scanPalaDesktopFile quote body (ret st)) as [out [e|]];
      cbn [snd] in Hsnd; intros [= <-];
      destruct (snd (Scanner_run body)); try discriminate; [|reflexivity].
    injection Hsnd as ->. reflexivity.
Qed.

Lemma first_failure_cons fs m members final :
  first_failure quote fs (m :: members) final
  = match member_error quote fs m with
    | Some e => Some e
    | None => first_failure quote fs members final
    end.
Proof.
  unfold first_failure. cbn [omap list_omap].
  now destruct (member_error quote fs m).
Qed.

Lemma scan_members_error fs members final :
  forall st res,
    scan_members quote fs members final st = Ret res ->
    first_failure quote fs members final
    = match res with inl _ => None | inr e => Some e end.
Proof.
  induction members as [|[header body] rest IH]; intros st res Hrun.
  - cbn in Hrun. unfold first_failure. cbn.
    destruct final; injection Hrun as <-; reflexivity.
  - cbn [scan_members] in Hrun. rewrite first_failure_cons.
    destruct (scan_member quote fs st header body) as [r1|] eqn:Hstep;
      [|discriminate].
    rewrite (scan_member_error _ _ _ _ _ Hstep).
    cbn [mbind outcome_bind] in Hrun. destruct r1 as [st1|e1].
    + eapply IH; eassumption.
    + now injection Hrun as <-.
Qed.

(** X10. Whenever a scan returns, its error is the one of the first step
    that fails: opening the file, asking its size, decompressing it, the
    members in the order of the archive (a name of a piece whose digits
    are no [int], a descriptor that cannot be read), and the end of the
    archive. It returns a record exactly when no step fails. The error
    does not depend on the tally or on the record. *)
Theorem X10_error_of_the_first_failure os fs o e :
  ScanPuzzle quote os fs = Ret (o, e) ->
  e = scan_error quote os fs /\ (o = None <-> scan_error quote os fs <> None).
Proof.
  intros H.
  assert (He : e = scan_error quote os fs).
  { unfold ScanPuzzle, scan_error in *.
    destruct (os fs) as [f|err]; [|now injection H as <- <-].
    destruct (Split fs) as [dir file].
    destruct (file_Stat f) as [size|err]; [|now injection H as <- <-].
    destruct (file_gzip f) as [tr|err]; [|now injection H as <- <-].
    change (make 512) with (Ret (replicate 512 0)) in H.
    cbn [mbind outcome_bind] in H.
    destruct (scan_members _ _ _ _ _) as [res|] eqn:Hrun; [|discriminate].
    rewrite (scan_members_error _ _ _ _ _ Hrun).
    cbn [mbind outcome_bind] in H. destruct res as [st|e'].
    - destruct (report_pieces _ _ _); [|discriminate].
      now injection H as <- <-.
    - now injection H as <- <-. }
  split; [assumption|]. rewrite <- He.
  destruct (ScanPuzzle_Ret _ _ _ _ _ H)
    as [(r & -> & ->)|(-> & err & be & -> & _)].
  - split; [discriminate|]. intros Hne. now destruct Hne.
  - split; [discriminate|reflexivity].
Qed.

(** X12. A member that is no piece, no image and no descriptor is not
    read: the scan of an archive is the scan of its pieces, images and
    descriptors. *)
Theorem X12_other_members_ignored fs members final st :
  scan_members quote fs (List.filter relevant members) final st
  = scan_members quote fs members final st.
Proof.
  revert st. induction members as [|[header body] rest IH]; intros st.
  - reflexivity.
  - cbn [List.filter]. destruct (relevant (header, body)) eqn:Hrel.
    + cbn [scan_members].
      destruct (scan_member quote fs st header body) as [[st1|e]|];
        cbn [mbind outcome_bind]; [apply IH|reflexivity|reflexivity].
    + rewrite IH. cbn [scan_members].
      unfold relevant in Hrel. cbn [fst] in Hrel. unfold scan_member.
      destruct (rePieceName (Name header)); [discriminate|].
      apply orb_false_elim in Hrel as [-> ->]. reflexivity.
Qed.

End Errors.

(** ** Panics, and the size of the tally *)

Section Tally.

Variable quote : string -> string.

Lemma scan_member_outcome fs st header body :
  512 <= len (piecesFound st) <= maxInt ->
  (exists res,
     scan_member quote fs st header body = Ret res /\
     forall st', res = inl st' -> 512 <= len (piecesFound st') <= maxInt) \/
  (scan_member quote fs st header body = Panic MakesliceLenOutOfRange /\
   exists d i, rePieceName (Name header) = Some d /\ Atoi d = inl i /\
               2 ^ 47 < i).
Proof.
  intros Hlen.
  destruct (rePieceName (Name header)) as [m1|] eqn:Hname.
  - destruct (Atoi m1) as [i|err] eqn:Hi.
    + destruct (Z_lt_dec i (len (piecesFound st))) as [Hin|Hout].
      * left.
        destruct (scan_member_piece_Ret quote fs st header body m1 i Hname Hi
                    Hlen (or_introl Hin)) as (st' & Hstep & _ & Hlen' & _).
        exists (inl st'). split; [assumption|]. intros ? [= <-].
        rewrite Hlen'. destruct (i >=? len (piecesFound st)) eqn:Hge;
          [apply Z.geb_le in Hge; lia|assumption].
      * destruct (Z_le_dec i (2 ^ 47)) as [Hsmall|Hbig].
        -- left.
           destruct (scan_member_piece_Ret quote fs st header body m1 i Hname
                       Hi Hlen (or_intror Hsmall))
             as (st' & Hstep & _ & Hlen' & _).
           exists (inl st'). split; [assumption|]. intros ? [= <-].
           rewrite Hlen'. destruct (i >=? len (piecesFound st));
             [unfold maxInt; lia|assumption].
        -- right. split; [|exists m1, i; repeat split; auto; lia].
           rewrite (scan_member_piece _ _ _ _ _ _ _ Hname Hi).
           pose proof (Atoi_range _ _ Hi).
           rewrite grow_Panic_alloc; [reflexivity|lia|lia].
    + left. apply scan_member_returns; [assumption|].
      intros d i Hd Ha. rewrite Hname in Hd. injection Hd as <-. congruence.
  - left. apply scan_member_returns; [assumption|].
    intros d i Hd. rewrite Hname in Hd. discriminate.
Qed.

Lemma scan_members_outcome fs members final :
  forall st,
    512 <= len (piecesFound st) <= maxInt ->
    (exists res, scan_members quote fs members final st = Ret res) \/
    (scan_members quote fs members final st = Panic MakesliceLenOutOfRange /\
     exists m d i, In m members /\ rePieceName (Name (fst m)) = Some d /\
                   Atoi d = inl i /\ 2 ^ 47 < i).
Proof.
  induction members as [|[header body] rest IH]; intros st Hlen.
  - left. cbn. destruct final; eauto.
  - cbn [scan_members].
    destruct (scan_member_outcome fs st header body Hlen)
      as [(res & -> & Hres)|(-> & d & i & Hd & Hi & Hbig)].
    + cbn [mbind outcome_bind]. destruct res as [st'|e]; [|eauto].
      destruct (IH st' (Hres st' eq_refl))
        as [Hret|(Hp & m & d & i & Hm & Hrest)]; [now left|right].
      split; [assumption|]. exists m, d, i. split; [now right|assumption].
    + right. split; [reflexivity|].
      exists (header, body), d, i. split; [now left|auto].
Qed.

(** X13. A scan never reads or writes the tally out of its bounds. The
    one panic of a scan is that of [make], for a length that is negative
    or above [maxAlloc], and a scan that panics has a member whose piece
    number is above 2^47. *)
Theorem X13_the_one_panic_of_a_scan os fs p :
  ScanPuzzle quote os fs = Panic p ->
  p = MakesliceLenOutOfRange /\
  exists m d i,
    In m (archive_members os fs) /\ rePieceName (Name (fst m)) = Some d /\
    Atoi d = inl i /\ 2 ^ 47 < i.
Proof.
  unfold ScanPuzzle, archive_members.
  destruct (os fs) as [f|err]; [|discriminate].
  destruct (Split fs) as [dir file].
  destruct (file_Stat f) as [size|err]; [|discriminate].
  destruct (file_gzip f) as [tr|err]; [|discriminate].
  change (make 512) with (Ret (replicate 512 0)).
  cbn [mbind outcome_bind].
  destruct (scan_members_outcome fs (tar_members tr) (tar_end tr)
              (mkState (set_PuzzleFileSize size
                          (set_Filename file (set_Dir dir PuzzleInfo_zero)))
                 (-1) (replicate 512 0)))
    as [[res Hrun]|(Hrun & Hlarge)].
  { cbn [piecesFound]. unfold len, maxInt. rewrite length_replicate. lia. }
  - rewrite Hrun. cbn [mbind outcome_bind]. destruct res as [st|e];
      [|discriminate].
    destruct (scan_members_Ret _ _ _ _ _ _ _ (tally_of_init _) Hrun)
      as (_ & Hinv & _).
    rewrite (report_pieces_tally _ _ _ Hinv). discriminate.
  - rewrite Hrun. cbn [mbind outcome_bind]. intros [= <-]. auto.
Qed.

Lemma scan_member_piece_len fs st header body m1 i st' :
  rePieceName (Name header) = Some m1 -> Atoi m1 = inl i ->
  512 <= len (piecesFound st) <= maxInt ->
  scan_member quote fs st header body = Ret (inl st') ->
  len (piecesFound st')
  = if i >=? len (piecesFound st) then 2 * i else len (piecesFound st).
Proof.
  intros Hname Hi Hlen Hstep.
  assert (Hok : i < len (piecesFound st) \/ i <= 2 ^ 47).
  { destruct (Z_lt_dec i (len (piecesFound st))) as [|Hout]; [now left|].
    destruct (Z_le_dec i (2 ^ 47)) as [|Hbig]; [now right|].
    rewrite (scan_member_piece _ _ _ _ _ _ _ Hname Hi) in Hstep.
    pose proof (Atoi_range _ _ Hi).
    rewrite grow_Panic_alloc in Hstep by lia. discriminate. }
  destruct (scan_member_piece_Ret quote fs st header body m1 i Hname Hi Hlen
              Hok) as (st'' & Hstep' & _ & Hlen' & _).
  rewrite Hstep in Hstep'. now injection Hstep' as <-.
Qed.

Lemma scan_members_len fs members final :
  forall st st',
    512 <= len (piecesFound st) <= maxInt ->
    scan_members quote fs members final st = Ret (inl st') ->
    len (piecesFound st) <= len (piecesFound st')
    <= Z.max (len (piecesFound st)) (2 * highest (piece_numbers members)).
Proof.
  induction members as [|[header body] rest IH]; intros st st' Hlen Hrun.
  - cbn in Hrun. destruct final; [discriminate|].
    injection Hrun as <-. cbn. lia.
  - cbn [scan_members] in Hrun.
    destruct (scan_member quote fs st header body) as [[st1|e]|] eqn:Hstep;
      cbn [mbind outcome_bind] in Hrun; try discriminate.
    destruct (rePieceName (Name header)) as [m1|] eqn:Hname.
    + destruct (Atoi m1) as [i|err] eqn:Hi.
      * pose proof (scan_member_piece_len _ _ _ _ _ _ _ Hname Hi Hlen Hstep)
          as Hlen1.
        pose proof (Atoi_range _ _ Hi) as Hrange.
        assert (Hin : 512 <= len (piecesFound st1) <= maxInt).
        { destruct (scan_member_outcome fs st header body Hlen)
            as [(res & Hres & Hkeep)|(Hp & _)]; [|congruence].
          apply Hkeep. congruence. }
        specialize (IH st1 st' Hin Hrun).
        rewrite (piece_numbers_cons_piece _ _ _ _ _ Hname Hi).
        cbn [highest fold_right]. fold (highest (piece_numbers rest)).
        destruct (i >=? len (piecesFound st)) eqn:Hge;
          [apply Z.geb_le in Hge|rewrite Z.geb_leb in Hge;
                                 apply Z.leb_gt in Hge]; lia.
      * unfold scan_member in Hstep. rewrite Hname, Hi in Hstep.
        discriminate.
    + pose proof (scan_member_other _ _ _ _ _ _ Hname Hstep) as ->.
      rewrite (piece_numbers_cons_other _ _ _ Hname).
      exact (IH (mkState (record_member quote (ret st) (header, body))
                   (maxPieceNum st) (piecesFound st)) st' Hlen Hrun).
Qed.

(** X14. When the first loop of a scan ends, the tally has a position
    for the highest piece number and at most 512 positions or twice the
    highest piece number: a piece with a large number makes the scan
    hold a tally of up to twice that number of bytes. *)
Theorem X14_size_of_the_tally fs members final p st :
  scan_members quote fs members final (mkState p (-1) (replicate 512 0))
  = Ret (inl st) ->
  maxPieceNum st = highest (piece_numbers members) /\
  maxPieceNum st < len (piecesFound st) /\
  512 <= len (piecesFound st)
  <= Z.max 512 (2 * highest (piece_numbers members)).
Proof.
  intros Hrun.
  destruct (scan_members_Ret _ _ _ _ _ _ _ (tally_of_init p) Hrun)
    as (_ & (_ & Hmax & Hseen & _) & _). cbn [app] in *.
  assert (Hlen0 : 512 <= len (replicate 512 0) <= maxInt).
  { unfold len, maxInt. rewrite length_replicate. lia. }
  pose proof (scan_members_len fs members final
                (mkState p (-1) (replicate 512 0)) st Hlen0 Hrun) as Hlen.
  cbn [piecesFound] in Hlen.
  assert (H512 : len (replicate 512 0) = 512).
  { unfold len. now rewrite length_replicate. }
  rewrite H512 in Hlen.
  split; [assumption|]. split; [|lia]. rewrite Hmax.
  destruct (piece_numbers members) as [|k l'] eqn:Hl; [cbn; lia|].
  assert (Hin : In (highest (k :: l')) (k :: l')).
  { apply highest_In; [congruence|]. intros j Hj. apply Hseen in Hj. lia. }
  apply Hseen in Hin. lia.
Qed.

End Tally.

(** ** Counts below 256, and the two revisions *)

Section Revisions.

Variable quote : string -> string.

(** X15. When no piece number occurs 256 times or more, the warnings
    about the pieces are exact below the highest number: a piece is
    reported as missing exactly when no member has its number, and with
    n members exactly when n members have its number and n is above 1. *)
Theorem X15_exact_warnings_below_256 os fs r e i :
  ScanPuzzle quote os fs = Ret (Some r, e) ->
  let l := piece_numbers (archive_members os fs) in
  (forall j, occurrences j l < 256) ->
  (In (missing_warning i) (Warnings r) <-> 0 <= i < highest l /\ ~ In i l) /\
  (forall n, In (members_warning n i) (Warnings r) <->
             0 <= i < highest l /\ n = occurrences i l /\ 1 < n).
Proof.
  intros H. cbv zeta. intros Hsmall.
  pose proof (occurrences_nonneg i (piece_numbers (archive_members os fs)))
    as H0.
  specialize (Hsmall i). split.
  - rewrite (In_Warnings_missing _ _ _ _ _ i H), Z.mod_small by lia.
    split; intros [Hi Hocc]; (split; [assumption|]).
    + intros Hin. apply occurrences_pos in Hin. lia.
    + now apply occurrences_zero.
  - intros n. rewrite (In_Warnings_members _ _ _ _ _ n i H).
    now rewrite Z.mod_small by lia.
Qed.

Lemma scan_line_resize v out line :
  scan_line quote (set_PuzzleFileSize v out) line
  = set_PuzzleFileSize v (scan_line quote out line).
Proof.
  unfold scan_line.
  destruct (reKeyValue line) as [[k m2]|]; [|reflexivity].
  destruct (String.eqb k "Name"); [reflexivity|].
  destruct (String.eqb k "X-KDE-PluginInfo-Author"); [reflexivity|].
  destruct (String.eqb k "Comment"); [reflexivity|].
  destruct (_ || _); [|reflexivity].
  destruct (Atoi _); reflexivity.
Qed.

Lemma fold_scan_line_resize v lines out :
  fold_left (scan_line quote) lines (set_PuzzleFileSize v out)
  = set_PuzzleFileSize v (fold_left (scan_line quote) lines out).
Proof.
  revert out. induction lines as [|l ls IH]; intros out; [reflexivity|].
  cbn [fold_left]. now rewrite scan_line_resize, IH.
Qed.

Lemma scanPalaDesktopFile_resize v tr out :
  scanPalaDesktopFile quote tr (set_PuzzleFileSize v out)
  = (set_PuzzleFileSize v (fst (scanPalaDesktopFile quote tr out)),
     snd (scanPalaDesktopFile quote tr out)).
Proof.
  unfold scanPalaDesktopFile. destruct (Scanner_run tr) as [lines [err|]];
    cbn [fst snd]; now rewrite fold_scan_line_resize.
Qed.

Lemma scan_member_resize v fs st header body :
  scan_member quote fs (resize v st) header body
  = match scan_member quote fs st header body with
    | Ret (inl st') => Ret (inl (resize v st'))
    | other => other
    end.
Proof.
  unfold scan_member, resize. cbn [ret maxPieceNum piecesFound].
  destruct (rePieceName (Name header)) as [m1|].
  - destruct (Atoi m1) as [i|err]; [|reflexivity].
    destruct (if i >=? _ then _ else _) as [found|]; [|reflexivity].
    cbn [mbind outcome_bind]. destruct (incr_at found i); reflexivity.
  - destruct (String.eqb (Name header) "image.jpg"); [reflexivity|].
    destruct (String.eqb (Name header) "pala.desktop"); [|reflexivity].
    rewrite scanPalaDesktopFile_resize.
    destruct (scanPalaDesktopFile quote body (ret st)) as [out [e|]];
      reflexivity.
Qed.

Lemma scan_members_resize v fs members final :
  forall st,
    scan_members quote fs members final (resize v st)
    = match scan_members quote fs members final st with
      | Ret (inl st') => Ret (inl (resize v st'))
      | other => other
      end.
Proof.
  induction members as [|[header body] rest IH]; intros st.
  - cbn. destruct final; reflexivity.
  - cbn [scan_members]. rewrite scan_member_resize.
    destruct (scan_member quote fs st header body) as [[st1|e]|];
      cbn [mbind outcome_bind]; [apply IH|reflexivity|reflexivity].
Qed.

(** X16. Where the file opens and [Stat] gives its size, the earlier
    revision of [ScanPuzzle] returns what the later one returns, with the
    size of the file left at 0 in the record: the same fields and
    warnings, the same error, the same panic. Where the file does not
    open, both return the same error. *)
Theorem X16_the_revisions_agree os fs :
  (forall f, os fs = inl f -> exists size, file_Stat f = inl size) ->
  Part000.ScanPuzzle quote os fs = without_size (ScanPuzzle quote os fs).
Proof.
  intros Hstat. unfold Part000.ScanPuzzle, ScanPuzzle.
  destruct (os fs) as [f|err]; [|reflexivity].
  destruct (Hstat f eq_refl) as [size ->].
  destruct (Split fs) as [dir file].
  destruct (file_gzip f) as [tr|err]; [|reflexivity].
  change (make 512) with (Ret (replicate 512 0)).
  cbn [mbind outcome_bind].
  set (st0 := mkState (set_PuzzleFileSize size
                         (set_Filename file (set_Dir dir PuzzleInfo_zero)))
                (-1) (replicate 512 0)).
  change (mkState (set_Filename file (set_Dir dir PuzzleInfo_zero)) (-1)
            (replicate 512 0)) with (resize 0 st0).
  rewrite scan_members_resize.
  destruct (scan_members quote fs (tar_members tr) (tar_end tr) st0)
    as [[st|e]|]; cbn [mbind outcome_bind without_size]; try reflexivity.
  cbn [resize piecesFound maxPieceNum ret].
  change (Warnings (set_PuzzleFileSize 0 (ret st))) with (Warnings (ret st)).
  destruct (report_pieces _ _ _); reflexivity.
Qed.

End Revisions.

(** ** More examples *)

(** X4 at the line of a title with a locale. *)
Lemma X4_locale_witness :
  scan_line QuoteASCII two_3png_record "Name[de]=Schloss" = two_3png_record.
Proof.
  exact (X4_bracket_before_equals_ignored QuoteASCII two_3png_record
           "Name" "de]=Schloss" eq_refl).
Defined.

(** X5 at the digits 7: the names 7.png and 007.png. *)
Lemma X5_leading_zeros_witness :
  piece_number (mkHeader "7.png" 0) = Some 7
  /\ piece_number (mkHeader "007.png" 0) = piece_number (mkHeader "7.png" 0).
Proof.
  split; [reflexivity|].
  destruct (X5_piece_number_value "7" 0 ltac:(discriminate) eq_refl)
    as (v & _ & _ & _ & Hzeros).
  exact (Hzeros 2%nat 0).
Defined.

(** X6 at the archive [two_descriptors]. *)
Lemma X6_two_descriptors_witness :
  ScanPuzzle QuoteASCII two_descriptors puzzle_path
  = Ret (Some two_descriptors_record, None)
  /\ omap (line_field "Name")
       (descriptor_lines (archive_members two_descriptors puzzle_path))
     = ["Foo"; "Bar"]
  /\ omap line_count
       (descriptor_lines (archive_members two_descriptors puzzle_path))
     = [-1; 2; -1]
  /\ Title two_descriptors_record
     = List.last
         (omap (line_field "Name")
            (descriptor_lines (archive_members two_descriptors puzzle_path)))
         EmptyString
  /\ NPiecesDecl two_descriptors_record
     = List.last
         (omap line_count
            (descriptor_lines (archive_members two_descriptors puzzle_path)))
         0.
Proof.
  assert (H : ScanPuzzle QuoteASCII two_descriptors puzzle_path
              = Ret (Some two_descriptors_record, None))
    by (vm_compute; reflexivity).
  destruct (X6_last_line_of_a_key_wins QuoteASCII two_descriptors puzzle_path
              two_descriptors_record None H) as (Ht & _ & _ & Hc).
  split; [exact H|]. split; [vm_compute; reflexivity|].
  split; [vm_compute; reflexivity|]. split; assumption.
Defined.

(** X7 at the archive [two_descriptors]. *)
Lemma X7_two_descriptors_witness :
  Warnings two_descriptors_record
  = omap (line_warning QuoteASCII)
      (descriptor_lines (archive_members two_descriptors puzzle_path))
    ++ tally_warnings (piece_numbers (archive_members two_descriptors
                                        puzzle_path)).
Proof.
  apply (X7_warnings_of_a_record QuoteASCII two_descriptors puzzle_path
           two_descriptors_record None).
  vm_compute. reflexivity.
Defined.

(** X8 at the archive [two_descriptors]. *)
Lemma X8_two_descriptors_witness :
  Dir two_descriptors_record +:+ Filename two_descriptors_record = puzzle_path
  /\ string_forallb not_slash (Filename two_descriptors_record) = true
  /\ (Dir two_descriptors_record = EmptyString \/
      exists d, Dir two_descriptors_record = d +:+ "/")
  /\ PuzzleFileSize two_descriptors_record
     = archive_size two_descriptors puzzle_path.
Proof.
  apply (X8_location_of_a_record QuoteASCII two_descriptors puzzle_path
           two_descriptors_record None).
  vm_compute. reflexivity.
Defined.

(** X9 at the archive [shuffled_pieces]. *)
Lemma X9_shuffled_pieces_witness :
  ScanPuzzle QuoteASCII shuffled_pieces puzzle_path
  = Ret (Some shuffled_pieces_record, None)
  /\ piece_numbers (archive_members shuffled_pieces puzzle_path) = [2; 0; 1]
  /\ NPieceFiles shuffled_pieces_record = 3
  /\ Warnings shuffled_pieces_record
     = omap (line_warning QuoteASCII)
         (descriptor_lines (archive_members shuffled_pieces puzzle_path)).
Proof.
  assert (H : ScanPuzzle QuoteASCII shuffled_pieces puzzle_path
              = Ret (Some shuffled_pieces_record, None))
    by (vm_compute; reflexivity).
  assert (Hperm : Permutation
                    (piece_numbers (archive_members shuffled_pieces
                                      puzzle_path))
                    (seqZ 0 3)).
  { change (Permutation [2; 0; 1] [0; 1; 2]).
    apply (perm_trans (perm_swap 0 2 [1])). apply perm_skip, perm_swap. }
  destruct (X9_every_piece_once QuoteASCII shuffled_pieces puzzle_path
              shuffled_pieces_record None 3 H eq_refl Hperm)
    as (Hn & Hw & _).
  split; [exact H|]. split; [vm_compute; reflexivity|]. split; assumption.
Defined.

(** X10 at the archive [long_number]: the error is the one of the name
    of twenty digits. *)
Lemma X10_long_number_witness :
  ScanPuzzle QuoteASCII long_number puzzle_path
  = Ret (None, Some long_number_error)
  /\ scan_error QuoteASCII long_number puzzle_path = Some long_number_error.
Proof.
  assert (H : ScanPuzzle QuoteASCII long_number puzzle_path
              = Ret (None, Some long_number_error))
    by (vm_compute; reflexivity).
  split; [exact H|]. symmetry.
  exact (proj1 (X10_error_of_the_first_failure QuoteASCII long_number
                  puzzle_path None (Some long_number_error) H)).
Defined.

(** X11 at the archives [pieces_between] and [pieces_ahead]: the second
    scan returns the record of the first. *)
Lemma X11_moved_pieces_witness :
  ScanPuzzle QuoteASCII pieces_between puzzle_path
  = Ret (Some moved_pieces_record, None)
  /\ piece_numbers (archive_members pieces_between puzzle_path) = [2; 0; 0]
  /\ piece_numbers (archive_members pieces_ahead puzzle_path) = [0; 2; 0]
  /\ ScanPuzzle QuoteASCII pieces_ahead puzzle_path
     = Ret (Some moved_pieces_record, None).
Proof.
  assert (H : ScanPuzzle QuoteASCII pieces_between puzzle_path
              = Ret (Some moved_pieces_record, None))
    by (vm_compute; reflexivity).
  assert (H' : exists r' e', ScanPuzzle QuoteASCII pieces_ahead puzzle_path
                             = Ret (Some r', e'))
    by (do 2 eexists; vm_compute; reflexivity).
  destruct H' as (r' & e' & H').
  assert (Hperm : Permutation
                    (piece_numbers (archive_members pieces_between
                                      puzzle_path))
                    (piece_numbers (archive_members pieces_ahead
                                      puzzle_path))).
  { change (Permutation [2; 0; 0] [0; 2; 0]). apply perm_swap. }
  destruct (X11_order_of_the_pieces QuoteASCII pieces_between pieces_ahead
              puzzle_path moved_pieces_record None r' e' H H'
              eq_refl eq_refl eq_refl Hperm) as [<- <-].
  split; [exact H|]. split; [vm_compute; reflexivity|].
  split; [vm_compute; reflexivity|exact H'].
Defined.

(** X13 at the archive [large_piece]. *)
Lemma X13_large_piece_witness :
  ScanPuzzle QuoteASCII large_piece puzzle_path = Panic MakesliceLenOutOfRange
  /\ exists m d i,
       In m (archive_members large_piece puzzle_path) /\
       rePieceName (Name (fst m)) = Some d /\ Atoi d = inl i /\ 2 ^ 47 < i.
Proof.
  assert (H : ScanPuzzle QuoteASCII large_piece puzzle_path
              = Panic MakesliceLenOutOfRange) by (vm_compute; reflexivity).
  split; [exact H|].
  exact (proj2 (X13_the_one_panic_of_a_scan QuoteASCII large_piece puzzle_path
                  MakesliceLenOutOfRange H)).
Defined.

(** X14 at the one piece 600.png: a tally of 1200 positions. *)
Lemma X14_piece_600_witness :
  exists st,
    scan_members QuoteASCII puzzle_path [piece "600.png"] None
      (mkState PuzzleInfo_zero (-1) (replicate 512 0)) = Ret (inl st)
    /\ maxPieceNum st = highest (piece_numbers [piece "600.png"])
    /\ maxPieceNum st < len (piecesFound st)
    /\ 512 <= len (piecesFound st)
       <= Z.max 512 (2 * highest (piece_numbers [piece "600.png"])).
Proof.
  destruct (scan_members QuoteASCII puzzle_path [piece "600.png"] None
              (mkState PuzzleInfo_zero (-1) (replicate 512 0)))
    as [[st|e]|] eqn:Hrun.
  - exists st. split; [reflexivity|].
    exact (X14_size_of_the_tally QuoteASCII puzzle_path [piece "600.png"]
             None PuzzleInfo_zero st Hrun).
  - vm_compute in Hrun. discriminate.
  - vm_compute in Hrun. discriminate.
Defined.

(** X15 at the archive [two_images]: the two members of the piece 1. *)
Lemma X15_two_images_witness :
  In (members_warning 2 1) (Warnings two_images_record)
  /\ ~ In (missing_warning 1) (Warnings two_images_record).
Proof.
  assert (H : ScanPuzzle QuoteASCII two_images puzzle_path
              = Ret (Some two_images_record, None))
    by (vm_compute; reflexivity).
  assert (Hsmall : forall j,
             occurrences j (piece_numbers (archive_members two_images
                                             puzzle_path)) < 256).
  { intros j. unfold occurrences.
    pose proof (count_occ_bound Z.eq_dec j
                  (piece_numbers (archive_members two_images puzzle_path)))
      as Hb.
    change (length (piece_numbers (archive_members two_images puzzle_path)))
      with 4%nat in Hb. lia. }
  destruct (X15_exact_warnings_below_256 QuoteASCII two_images puzzle_path
              two_images_record None 1 H Hsmall) as [Hmiss Hmem].
  split.
  - apply Hmem. vm_compute. repeat split; discriminate.
  - intros Hin. apply Hmiss in Hin as [_ Hnot]. apply Hnot.
    vm_compute. auto.
Defined.

(** X16 at the archive [five_pieces]. *)
Lemma X16_five_pieces_witness :
  Part000.ScanPuzzle QuoteASCII five_pieces puzzle_path
  = Ret (Some (set_PuzzleFileSize 0 five_pieces_record), None).
Proof.
  rewrite (X16_the_revisions_agree QuoteASCII five_pieces puzzle_path).
  - vm_compute. reflexivity.
  - intros f Hf. vm_compute in Hf. injection Hf as <-. now exists 4096.
Defined.
